(** * A shallow embedding of the three-card poker bot (250102080.py)

    The development follows the source file section by section: card
    utilities, hand category evaluation, the hand comparison helper, the
    strategy function [decide_action] and the I/O glue of [main].

    Modelling conventions.
    - A value produced by [json.loads] is a [pyval]; [PFloat q] is the
      finite float of value [q].  The constants [Infinity] and [NaN], which
      [json.loads] also accepts, are not input values of the model; the
      arithmetic of the program can still produce them.
    - Python [int] is [Z].  Python [float] is IEEE 754 binary64, see
      [float]: every arithmetic operation rounds its exact result to the
      nearest representable number, ties to even ([b64]), overflows to an
      infinity and may produce NaN.  The two zeros are not told apart, since
      the program never observes the sign of a zero.
    - The outcomes 1.0, 0.0 and 0.5 of a comparison and their running total
      over the 800 trials are multiples of 0.5 below 2^53, which binary64
      adds without rounding: they are kept as exact rationals, and the
      quotient [wins / sims] is rounded where [equity] is read.
    - Characters are [ascii]; a Python [str] is a [string].
    - A raised exception is the [Raise] case of [result]; the ambient random
      generator is threaded explicitly as an [rng]. *)

From Stdlib Require Import List ZArith QArith Qround Qabs String Ascii Bool.
From Stdlib Require Import Lia Lqa.
From Stdlib Require Import Permutation.
Import ListNotations.

Local Open Scope string_scope.
Local Open Scope Z_scope.

Set Warnings "-register-all".

(** ** Python values and exceptions *)

Inductive pyval : Type :=
| PNone
| PBool (b : bool)
| PInt (z : Z)
| PFloat (q : Q)
| PStr (s : string)
| PList (l : list pyval)
| PDict (d : list (string * pyval)).

Inductive exn : Type :=
| AttributeError
| TypeError
| KeyError
| IndexError
| ValueError
| ZeroDivisionError
| OverflowError.

Inductive result (A : Type) : Type :=
| Ok (a : A)
| Raise (e : exn).

Arguments Ok {A} a.
Arguments Raise {A} e.

Definition rbind {A B : Type} (c : result A) (k : A -> result B) : result B :=
  match c with
  | Ok a => k a
  | Raise e => Raise e
  end.

Declare Scope result_scope.
Delimit Scope result_scope with result.
Notation "x <- c ;; k" := (rbind c (fun x => k))
  (at level 61, c at next level, right associativity) : result_scope.
Notation "' p <- c ;; k" := (rbind c (fun x => match x with p => k end))
  (at level 61, p pattern, c at next level, right associativity) : result_scope.

Fixpoint mapM {A B : Type} (f : A -> result B) (l : list A) : result (list B) :=
  match l with
  | [] => Ok []
  | x :: t =>
      (y <- f x ;;
       ys <- mapM f t ;;
       Ok (y :: ys))%result
  end.

(** [bool(v)] for a JSON value. *)
Definition truthy (v : pyval) : bool :=
  match v with
  | PNone => false
  | PBool b => b
  | PInt z => negb (z =? 0)
  | PFloat q => negb (Qeq_bool q 0)
  | PStr s => negb (String.eqb s "")
  | PList l => negb (Nat.eqb (List.length l) 0)
  | PDict d => negb (Nat.eqb (List.length d) 0)
  end.

(** The numeric value of a Python number ([bool] is a subclass of [int]). *)
Definition num_of (v : pyval) : option Q :=
  match v with
  | PBool b => Some (inject_Z (if b then 1 else 0))
  | PInt z => Some (inject_Z z)
  | PFloat q => Some q
  | _ => None
  end.

Definition hashable (v : pyval) : bool :=
  match v with
  | PList _ | PDict _ => false
  | _ => true
  end.

(** [a == b] when one side is [None], a number or a string; a list or a
    dict never equals such a value. *)
Definition py_eq (a b : pyval) : bool :=
  match a, b with
  | PNone, PNone => true
  | PStr s, PStr t => String.eqb s t
  | _, _ =>
      match num_of a, num_of b with
      | Some x, Some y => Qeq_bool x y
      | _, _ => false
      end
  end.

(** [v[i]] for a non-negative literal index [i]. *)
Definition py_getitem (v : pyval) (i : nat) : result pyval :=
  match v with
  | PStr s =>
      match String.get i s with
      | Some c => Ok (PStr (String c ""))
      | None => Raise IndexError
      end
  | PList l =>
      match nth_error l i with
      | Some x => Ok x
      | None => Raise IndexError
      end
  | PDict _ => Raise KeyError
  | _ => Raise TypeError
  end.

(** [a + b] where [b] is a list display: only [list + list] succeeds. *)
Definition py_list_concat (a : pyval) (b : list pyval) : result (list pyval) :=
  match a with
  | PList l => Ok (l ++ b)%list
  | _ => Raise TypeError
  end.

(** [l[i]] on a list of integers. *)
Definition idx (l : list Z) (i : nat) : result Z :=
  match nth_error l i with
  | Some x => Ok x
  | None => Raise IndexError
  end.

(** [sorted(l)] on integers. *)
Fixpoint insert (x : Z) (l : list Z) : list Z :=
  match l with
  | [] => [x]
  | y :: t => if x <=? y then x :: y :: t else y :: insert x t
  end.

Fixpoint sorted (l : list Z) : list Z :=
  match l with
  | [] => []
  | x :: t => insert x (sorted t)
  end.

(** [sorted(l, reverse=True)] on integers. *)
Definition sorted_reverse (l : list Z) : list Z := rev (sorted l).

Definition mem (x : Z) (l : list Z) : bool := existsb (Z.eqb x) l.

(** [set(l1) == set(l2)]. *)
Definition set_eqb (l1 l2 : list Z) : bool :=
  forallb (fun x => mem x l2) l1 && forallb (fun x => mem x l1) l2.

(** [set(l)] on hashable values, as the list of its distinct elements. *)
Fixpoint py_set (l : list pyval) : result (list pyval) :=
  match l with
  | [] => Ok []
  | x :: t =>
      if hashable x then
        (s <- py_set t ;;
         Ok (if existsb (py_eq x) s then s else x :: s))%result
      else Raise TypeError
  end.

(** ** 1. Basic card utilities *)

Definition RANKS : string := "23456789TJQKA".

Fixpoint enumerate (i : Z) (s : string) : list (Z * ascii) :=
  match s with
  | EmptyString => []
  | String c t => (i, c) :: enumerate (i + 1) t
  end.

(** [RANK_VALUE = {r: i + 2 for i, r in enumerate(RANKS)}] *)
Definition RANK_VALUE : list (string * Z) :=
  map (fun p => (String (snd p) "", fst p + 2)) (enumerate 0 RANKS).

Fixpoint assoc {V : Type} (k : string) (d : list (string * V)) : option V :=
  match d with
  | [] => None
  | (k', v) :: t => if String.eqb k k' then Some v else assoc k t
  end.

(** [RANK_VALUE[k]] *)
Definition rank_lookup (k : pyval) : result Z :=
  match k with
  | PStr s =>
      match assoc s RANK_VALUE with
      | Some v => Ok v
      | None => Raise KeyError
      end
  | PList _ | PDict _ => Raise TypeError
  | _ => Raise KeyError
  end.

Definition parse_card (card_str : pyval) : result (Z * pyval) :=
  (r <- py_getitem card_str 0 ;;
   v <- rank_lookup r ;;
   s <- py_getitem card_str 1 ;;
   Ok (v, s))%result.

Definition is_straight_3 (rank_values : list Z) : result (bool * Z) :=
  let r := sorted rank_values in
  (r0 <- idx r 0 ;;
   r1 <- idx r 1 ;;
   consecutive <-
     (if r0 + 1 =? r1
      then (r1' <- idx r 1 ;; r2 <- idx r 2 ;; Ok (r1' + 1 =? r2))
      else Ok false) ;;
   if consecutive : bool then
     (r2 <- idx r 2 ;; Ok (true, r2))
   else if set_eqb r [14; 2; 3] then Ok (true, 3)
   else Ok (false, 0))%result.

(** ** 2. Hand category evaluation *)

(** [counts[v] = counts.get(v, 0) + 1] on an insertion-ordered dict. *)
Fixpoint counts_incr (v : Z) (counts : list (Z * Z)) : list (Z * Z) :=
  match counts with
  | [] => [(v, 0 + 1)]
  | (k, n) :: t => if k =? v then (k, n + 1) :: t else (k, n) :: counts_incr v t
  end.

Definition count_values (rank_values : list Z) : list (Z * Z) :=
  fold_left (fun counts v => counts_incr v counts) rank_values [].

(** [n in counts.values()] *)
Definition in_values (n : Z) (counts : list (Z * Z)) : bool :=
  existsb (fun kv => n =? snd kv) counts.

Definition hand_category (hole : pyval) (table : pyval) : result Z :=
  (cards <- py_list_concat hole [table] ;;
   parsed <- mapM parse_card cards ;;
   match parsed with
   | [] => Raise ValueError
   | _ :: _ =>
       let rank_values := map fst parsed in
       let suits := map snd parsed in
       suit_set <- py_set suits ;;
       let flush := Nat.eqb (List.length suit_set) 1 in
       let counts := count_values rank_values in
       ' (straight, _) <- is_straight_3 rank_values ;;
       if straight && flush then Ok 5
       else if in_values 3 counts then Ok 4
       else if straight then Ok 3
       else if flush then Ok 2
       else if in_values 2 counts then Ok 1
       else Ok 0
   end)%result.

(** ** 3. Helper: compare two hands *)

(** The values of [[parse_card(c)[0] for c in cards + [table]]]. *)
Definition card_values (cards : pyval) (table : pyval) : result (list Z) :=
  (cs <- py_list_concat cards [table] ;;
   parsed <- mapM parse_card cs ;;
   Ok (map fst parsed))%result.

(** The loop [for m, o in zip(my_vals, opp_vals)] followed by [return 0.5]. *)
Fixpoint compare_loop (pairs : list (Z * Z)) : Q :=
  match pairs with
  | [] => 0.5%Q
  | (m, o) :: t =>
      if m >? o then 1.0%Q
      else if o >? m then 0.0%Q
      else compare_loop t
  end.

Definition compare_hands_internal (my_cards : pyval) (table : pyval)
    (opp_cards : pyval) : result Q :=
  (my_rank <- hand_category my_cards table ;;
   opp_rank <- hand_category opp_cards table ;;
   if my_rank >? opp_rank then Ok 1.0%Q
   else if opp_rank >? my_rank then Ok 0.0%Q
   else
     my_vals0 <- card_values my_cards table ;;
     opp_vals0 <- card_values opp_cards table ;;
     let my_vals0 := sorted_reverse my_vals0 in
     let opp_vals0 := sorted_reverse opp_vals0 in
     let wheel := (my_rank =? 5) || (my_rank =? 3) in
     let my_vals :=
       if wheel && set_eqb my_vals0 [14; 3; 2] then [3; 2; 1] else my_vals0 in
     let opp_vals :=
       if wheel && set_eqb opp_vals0 [14; 3; 2] then [3; 2; 1] else opp_vals0 in
     Ok (compare_loop (combine my_vals opp_vals)))%result.

(** ** 4. Main strategy function *)

(** The ambient generator of the [random] module: [tape] holds the raw
    outcome of every future draw and [pos] counts the draws made so far. *)
Record rng : Type := { tape : nat -> nat * nat; pos : nat }.

Definition M (A : Type) : Type := rng -> result A * rng.

Definition ret {A : Type} (a : A) : M A := fun g => (Ok a, g).

Definition bind {A B : Type} (c : M A) (k : A -> M B) : M B :=
  fun g =>
    match c g with
    | (Ok a, g') => k a g'
    | (Raise e, g') => (Raise e, g')
    end.

Definition lift {A : Type} (r : result A) : M A := fun g => (r, g).

Declare Scope monad_scope.
Delimit Scope monad_scope with monad.
Notation "x <- c ;; k" := (bind c (fun x => k))
  (at level 61, c at next level, right associativity) : monad_scope.

(** [random.sample(population, 2)]: a [ValueError] when fewer than two
    elements are available, otherwise the elements at two distinct positions
    decoded from the next entry of the tape. *)
Definition random_sample (population : list string) : M (list string) :=
  fun g =>
    let n := List.length population in
    if (n <? 2)%nat then (Raise ValueError, g)
    else
      let (i, j) := tape g (pos g) in
      let a := (i mod n)%nat in
      let b := (j mod (n - 1))%nat in
      let b := if (b <? a)%nat then b else S b in
      (Ok [nth a population ""; nth b population ""],
       {| tape := tape g; pos := S (pos g) |}).

(** [d.get(key, default)] on the items of a dict. *)
Definition dict_get (l : list (string * pyval)) (key : string)
    (default : pyval) : pyval :=
  match assoc key l with
  | Some v => v
  | None => default
  end.

(** [d.get(key, default)]: only a dict has the method. *)
Definition py_get (d : pyval) (key : string) (default : pyval) : result pyval :=
  match d with
  | PDict l => Ok (dict_get l key default)
  | _ => Raise AttributeError
  end.

Fixpoint str_contains (needle hay : string) : bool :=
  String.prefix needle hay ||
  match hay with
  | EmptyString => false
  | String _ t => str_contains needle t
  end.

(** [c in container] for a string [c]. *)
Definition py_contains (c : string) (container : pyval) : result bool :=
  match container with
  | PList l => Ok (existsb (py_eq (PStr c)) l)
  | PStr s => Ok (str_contains c s)
  | PDict d => Ok (existsb (fun kv => String.eqb c (fst kv)) d)
  | _ => Raise TypeError
  end.

(** [c != v] for a string [c]. *)
Definition py_ne (c : string) (v : pyval) : bool := negb (py_eq (PStr c) v).

Definition as_int (v : pyval) : option Z :=
  match v with
  | PBool b => Some (if b then 1 else 0)
  | PInt z => Some z
  | _ => None
  end.

Definition Qltb (x y : Q) : bool := negb (Qle_bool y x).

(** ** Binary64 floating point *)

(** A Python [float]: a finite number, given by its value, an infinity or
    NaN. *)
Inductive float : Type :=
| FNum (q : Q)
| FInf (neg : bool)
| FNaN.

(** [2 ^ z] for an integer exponent. *)
Definition pow2 (z : Z) : Q :=
  if z <? 0 then 1 # (2 ^ Z.to_pos (- z)) else inject_Z (2 ^ z).

(** The binary exponent of a positive rational [a]: the integer [e] with
    [2 ^ e <= a < 2 ^ (e + 1)]. *)
Definition ilog2 (a : Q) : Z :=
  let l := Z.log2 (Qnum a) - Z.log2 (Zpos (Qden a)) in
  if Qle_bool (pow2 l) a then l else l - 1.

(** The integer nearest to [x], the even one of the two when [x] is halfway. *)
Definition round_half_even (x : Q) : Z :=
  let f := Qfloor x in
  match Qcompare (x - inject_Z f) (1 # 2) with
  | Lt => f
  | Gt => f + 1
  | Eq => if Z.even f then f else f + 1
  end.

Definition Qneg (q : Q) : bool := Qnum q <? 0.

(** Rounding to binary64: the exact value [q] is rounded to the nearest
    multiple of [2 ^ ex], where [ex] leaves a significand of 53 bits and is at
    least -1074 (the subnormal numbers); a result of magnitude [2 ^ 1024] or
    more overflows to an infinity. *)
Definition b64 (q : Q) : float :=
  let q := Qred q in
  if Qeq_bool q 0 then FNum 0
  else
    let a := Qabs q in
    let ex := Z.max (ilog2 a - 52) (-1074) in
    let r := Qred (inject_Z (round_half_even (a / pow2 ex)) * pow2 ex) in
    if Qle_bool (pow2 1024) r then FInf (Qneg q)
    else FNum (if Qneg q then Qopp r else r).

(** [- x] *)
Definition fneg (x : float) : float :=
  match x with
  | FNum q => FNum (- q)
  | FInf s => FInf (negb s)
  | FNaN => FNaN
  end.

(** [x + y] on floats. *)
Definition fadd (x y : float) : float :=
  match x, y with
  | FNum a, FNum b => b64 (a + b)
  | FNaN, _ | _, FNaN => FNaN
  | FInf s, FInf t => if Bool.eqb s t then FInf s else FNaN
  | FInf s, FNum _ | FNum _, FInf s => FInf s
  end.

(** [x - y] on floats. *)
Definition fsub (x y : float) : float := fadd x (fneg y).

(** [x * y] on floats. *)
Definition fmul (x y : float) : float :=
  match x, y with
  | FNum a, FNum b => b64 (a * b)
  | FNaN, _ | _, FNaN => FNaN
  | FInf s, FInf t => FInf (xorb s t)
  | FInf s, FNum b | FNum b, FInf s =>
      if Qeq_bool b 0 then FNaN else FInf (xorb s (Qneg b))
  end.

(** [x / y] on floats, for a divisor that is not zero. *)
Definition fdiv (x y : float) : float :=
  match x, y with
  | FNum a, FNum b => b64 (a / b)
  | FNaN, _ | _, FNaN => FNaN
  | FInf _, FInf _ => FNaN
  | FInf s, FNum b => FInf (xorb s (Qneg b))
  | FNum _, FInf _ => FNum 0
  end.

(** [x < y] on floats: false as soon as one side is NaN. *)
Definition flt (x y : float) : bool :=
  match x, y with
  | FNum a, FNum b => Qltb a b
  | FNaN, _ | _, FNaN => false
  | FInf s, FInf t => s && negb t
  | FInf s, FNum _ => s
  | FNum _, FInf t => negb t
  end.

(** An operand of the opponent analysis: a JSON value, or a float computed
    from JSON values. *)
Inductive value : Type :=
| VJson (v : pyval)
| VFloat (f : float).

Inductive number : Type :=
| NInt (z : Z)
| NFloat (f : float).

(** The numeric reading of an operand: [bool] and [int] are integers; the
    value of a JSON float is rounded, which changes nothing when it is a
    binary64 number. *)
Definition number_of (v : value) : option number :=
  match v with
  | VFloat f => Some (NFloat f)
  | VJson (PFloat q) => Some (NFloat (b64 q))
  | VJson j => option_map NInt (as_int j)
  end.

(** The conversion of an [int] operand of mixed arithmetic: the nearest
    float, [OverflowError] when the integer is too large. *)
Definition to_float (n : number) : result float :=
  match n with
  | NFloat f => Ok f
  | NInt z =>
      match b64 (inject_Z z) with
      | FInf _ => Raise OverflowError
      | f => Ok f
      end
  end.

(** [a + b] *)
Definition py_add (a b : value) : result value :=
  match number_of a, number_of b with
  | Some (NInt x), Some (NInt y) => Ok (VJson (PInt (x + y)))
  | Some x, Some y =>
      (fx <- to_float x ;;
       fy <- to_float y ;;
       Ok (VFloat (fadd fx fy)))%result
  | _, _ =>
      match a, b with
      | VJson (PStr s), VJson (PStr t) => Ok (VJson (PStr (s ++ t)))
      | VJson (PList l), VJson (PList m) => Ok (VJson (PList (l ++ m)))
      | _, _ => Raise TypeError
      end
  end.

(** [a > n] for an integer literal [n]: integers and floats are compared by
    value. *)
Definition py_gt (a : value) (n : Z) : result bool :=
  match number_of a with
  | Some (NInt x) => Ok (n <? x)
  | Some (NFloat f) => Ok (flt (FNum (inject_Z n)) f)
  | None => Raise TypeError
  end.

(** [a / b]: the quotient of two integers is their exact quotient rounded
    once, [OverflowError] when it is too large for a float; with a float
    operand both sides are converted first. *)
Definition py_truediv (a b : value) : result float :=
  match number_of a, number_of b with
  | Some (NInt x), Some (NInt y) =>
      if y =? 0 then Raise ZeroDivisionError
      else
        match b64 (inject_Z x / inject_Z y) with
        | FInf _ => Raise OverflowError
        | f => Ok f
        end
  | Some x, Some y =>
      (fx <- to_float x ;;
       fy <- to_float y ;;
       match fy with
       | FNum q => if Qeq_bool q 0 then Raise ZeroDivisionError
                   else Ok (fdiv fx fy)
       | _ => Ok (fdiv fx fy)
       end)%result
  | _, _ => Raise TypeError
  end.

(** The builtins [min(a, b)] and [max(a, b)]: the first argument is kept
    unless the second is strictly smaller (resp. larger). *)
Definition py_min (a b : float) : float := if flt b a then b else a.
Definition py_max (a b : float) : float := if flt a b then b else a.

(** The inner loop [for s in "HDSC"] of the deck construction. *)
Fixpoint suit_loop (r : ascii) (ss : string) (hole table : pyval)
    (deck : list string) : result (list string) :=
  match ss with
  | EmptyString => Ok deck
  | String s t =>
      let c := String r "" ++ String s "" in
      (present <- py_contains c hole ;;
       suit_loop r t hole table
         (if negb present && py_ne c table then (deck ++ [c])%list else deck))%result
  end.

(** The outer loop [for r in "23456789TJQKA"]. *)
Fixpoint rank_loop (rs : string) (hole table : pyval)
    (deck : list string) : result (list string) :=
  match rs with
  | EmptyString => Ok deck
  | String r t =>
      (deck' <- suit_loop r "HDSC" hole table deck ;;
       rank_loop t hole table deck')%result
  end.

Definition build_deck (hole table : pyval) : result (list string) :=
  rank_loop "23456789TJQKA" hole table [].

(** The loop [for _ in range(sims)]. *)
Fixpoint simulate (n : nat) (hole table : pyval) (deck : list string)
    (wins : Q) : M Q :=
  match n with
  | O => ret wins
  | S k =>
      (opp_hand <- random_sample deck ;;
       w <- lift (compare_hands_internal hole table (PList (map PStr opp_hand))) ;;
       simulate k hole table deck (wins + w)%Q)%monad
  end.

Definition sims : nat := 800.

(** STEP 1 of [decide_action] (lines 89-105): the equity estimate, as the
    exact quotient of the total by the number of trials. *)
Definition monte_carlo (hole table : pyval) : M Q :=
  (deck <- lift (build_deck hole table) ;;
   wins <- simulate sims hole table deck 0%Q ;;
   ret (wins / inject_Z (Z.of_nat sims))%Q)%monad.

(** The [return] statements of the [try] block, by source line. *)
Inductive site : Type :=
| RetEmpty      (* line 87 *)
| RetTrash      (* line 111 *)
| RetRaise      (* line 136 *)
| RetCall       (* line 139 *)
| RetFallback.  (* line 141 *)

Definition action_of (s : site) : string :=
  match s with
  | RetEmpty => "FOLD"
  | RetTrash => "FOLD"
  | RetRaise => "RAISE"
  | RetCall => "CALL"
  | RetFallback => "FOLD"
  end.

(** Opponent analysis (lines 114-119).  A float literal is the binary64
    nearest to its decimal value. *)
Definition fold_frequency (stats : pyval) : result float :=
  (n_fold <- py_get stats "fold" (PInt 0) ;;
   n_call <- py_get stats "call" (PInt 0) ;;
   n_fc <- py_add (VJson n_fold) (VJson n_call) ;;
   n_raise <- py_get stats "raise" (PInt 0) ;;
   n_actions <- py_add n_fc (VJson n_raise) ;;
   enough <- py_gt n_actions 5 ;;
   if enough : bool then
     (ratio <- py_truediv (VJson n_fold) n_actions ;;
      Ok (py_max (b64 0.05) (py_min (b64 0.95) ratio)))
   else Ok (b64 0.30))%result.

(** EV calculation (lines 122-131); the [int] 1 of [1 - x] is converted
    exactly. *)
Definition ev_fold : float := fneg (b64 1.0).

Definition ev_call (fold_freq real_equity : float) : float :=
  let ev_call_showdown :=
    fadd (fmul real_equity (b64 2.0))
         (fmul (fsub (FNum 1) real_equity) (fneg (b64 2.0))) in
  fadd (fmul fold_freq (b64 2.0))
       (fmul (fsub (FNum 1) fold_freq) ev_call_showdown).

Definition ev_raise (fold_freq real_equity : float) : float :=
  let ev_raise_showdown :=
    fadd (fmul real_equity (b64 3.0))
         (fmul (fsub (FNum 1) real_equity) (fneg (b64 3.0))) in
  fadd (fmul fold_freq (b64 3.0))
       (fmul (fsub (FNum 1) fold_freq) ev_raise_showdown).

(** Final decision (lines 135-141). *)
Definition final_decision (fold_freq equity : float) : site :=
  let real_equity := equity in
  if flt (fadd (ev_call fold_freq real_equity) (b64 0.10))
         (ev_raise fold_freq real_equity)
     && flt ev_fold (ev_raise fold_freq real_equity)
  then RetRaise
  else if flt (fadd ev_fold (b64 0.10)) (ev_call fold_freq real_equity)
  then RetCall
  else RetFallback.

(** STEP 2 of [decide_action] (lines 107-141), from the exact quotient
    [wins / sims] of the Monte Carlo step: [equity] is its binary64 value
    (line 105). *)
Definition strategic_logic (stats : pyval) (wins_over_sims : Q) : result site :=
  let equity := b64 wins_over_sims in
  if flt equity (b64 0.35) then Ok RetTrash
  else
    (fold_freq <- fold_frequency stats ;;
     Ok (final_decision fold_freq equity))%result.

(** The body of the [try] block. *)
Definition decide_body (state : pyval) : M site :=
  (hole <- lift (py_get state "your_hole" (PList [])) ;;
   table <- lift (py_get state "table_card" (PStr "")) ;;
   stats <- lift (py_get state "opponent_stats" (PDict [])) ;;
   n_total_rounds <- lift (py_get state "total_rounds" (PInt 1001)) ;;
   if negb (truthy hole) || negb (truthy table) then ret RetEmpty
   else
     equity <- monte_carlo hole table ;;
     lift (strategic_logic stats equity))%monad.

(** [decide_action]: the [try] body with its [except Exception] handler. *)
Definition decide_action (state : pyval) : rng -> string * rng :=
  fun g =>
    match decide_body state g with
    | (Ok s, g') => (action_of s, g')
    | (Raise _, g') => ("FOLD", g')
    end.

(** ** 5. I/O glue *)

Definition VALID_ACTIONS : list string := ["FOLD"; "CALL"; "RAISE"].

(** [if action not in {"FOLD", "CALL", "RAISE"}: action = "CALL"] *)
Definition coerce (action : string) : string :=
  if existsb (String.eqb action) VALID_ACTIONS then action else "CALL".

(** [main], from the outcome of parsing standard input: [None] stands for an
    empty input or one that [json.loads] rejects. *)
Definition main (parsed : option pyval) : rng -> string * rng :=
  fun g =>
    let state := match parsed with
                 | Some v => v
                 | None => PDict []
                 end in
    let (action, g') := decide_action state g in
    (coerce action, g').


(** ** Specification-level notions *)

(** A rank value, as produced by [RANK_VALUE]. *)
Definition is_rank (v : Z) : Prop := 2 <= v <= 14.

Definition max3 (a b c : Z) : Z := Z.max a (Z.max b c).
Definition min3 (a b c : Z) : Z := Z.min a (Z.min b c).

(** The three values, put in ascending order, each differ by 1 from the
    next. *)
Definition run3 (a b c : Z) : Prop :=
  exists x y z, Permutation [a; b; c] [x; y; z] /\ x + 1 = y /\ y + 1 = z.

(** The set of the values of [l] is [{14, 2, 3}]. *)
Definition wheel_set (l : list Z) : Prop :=
  forall v, In v l <-> v = 14 \/ v = 2 \/ v = 3.

(** A three-card hand made of two hole tokens and a table token. *)
Definition hand (a b : string) : pyval := PList [PStr a; PStr b].

(** The number of times [v] appears among [vals]. *)
Definition occurrences (vals : list Z) (v : Z) : nat := count_occ Z.eq_dec vals v.

(** The conditions of the category rules, on the rank values and suits of a
    hand. *)
Definition straight (vals : list Z) : Prop :=
  exists high, is_straight_3 vals = Ok (true, high).

Definition flush (s1 s2 s3 : pyval) : Prop := s1 = s2 /\ s2 = s3.

Definition three_of_a_kind (vals : list Z) : Prop :=
  exists v, occurrences vals v = 3%nat.

Definition pair (vals : list Z) : Prop :=
  exists v, occurrences vals v = 2%nat.

(** [k] is the outcome of the first rule of [rules] whose condition holds,
    and [default] when none does. *)
Fixpoint first_match (rules : list (Prop * Z)) (default k : Z) : Prop :=
  match rules with
  | [] => k = default
  | (P, c) :: rest => (P /\ k = c) \/ (~ P /\ first_match rest default k)
  end.

(** The value that the dict [counts] holds for [v], 0 when absent. *)
Fixpoint counts_get (v : Z) (counts : list (Z * Z)) : Z :=
  match counts with
  | [] => 0
  | (k, n) :: t => if k =? v then n else counts_get v t
  end.

(** Sortedness of the result of [sorted_reverse]. *)
Inductive descending : list Z -> Prop :=
| desc_nil : descending []
| desc_one x : descending [x]
| desc_cons x y l : y <= x -> descending (y :: l) -> descending (x :: y :: l).

(** [seq] is the tie-break sequence of a hand of category [cat] whose rank
    values are [vals]: the values in descending order, or [[3; 2; 1]] for the
    wheel in the straight categories. *)
Definition tie_break_seq (cat : Z) (vals seq : list Z) : Prop :=
  ((cat = 5 \/ cat = 3) /\ wheel_set vals /\ seq = [3; 2; 1]) \/
  (~ ((cat = 5 \/ cat = 3) /\ wheel_set vals) /\
   Permutation vals seq /\ descending seq).

(** [r] is the outcome of comparing [sa] and [sb] element by element: the
    first position where they differ decides, and equal sequences tie. *)
Definition lex_outcome (sa sb : list Z) (r : Q) : Prop :=
  (exists i m o,
      (forall j, (j < i)%nat -> nth_error sa j = nth_error sb j) /\
      nth_error sa i = Some m /\ nth_error sb i = Some o /\ m <> o /\
      r = if m >? o then 1.0%Q else 0.0%Q) \/
  (sa = sb /\ r = 0.5%Q).

(** The fields of a decision request, with the defaults of [decide_action]. *)
Definition request_hole (d : list (string * pyval)) : pyval :=
  dict_get d "your_hole" (PList []).

Definition request_table (d : list (string * pyval)) : pyval :=
  dict_get d "table_card" (PStr "").

Definition request_stats (d : list (string * pyval)) : pyval :=
  dict_get d "opponent_stats" (PDict []).

(** The request passes input validation (line 86). *)
Definition valid_request (d : list (string * pyval)) : Prop :=
  truthy (request_hole d) = true /\ truthy (request_table d) = true.

(** Started with generator [g], the Monte Carlo step computes [e] and leaves
    the generator in [g']. *)
Definition computed_equity (d : list (string * pyval)) (g : rng) (e : Q)
    (g' : rng) : Prop :=
  monte_carlo (request_hole d) (request_table d) g = (Ok e, g').

(** The field [key] of the opponent statistics is the observed count [n]:
    a non-negative integer, 0 when the field is absent. *)
Definition count_field (sd : list (string * pyval)) (key : string) (n : Z)
    : Prop :=
  0 <= n /\ (assoc key sd = Some (PInt n) \/ (assoc key sd = None /\ n = 0)).

(** The opponent statistics of the request are a mapping with the counts
    [n_fold], [n_call] and [n_raise]. *)
Definition counted_stats (d : list (string * pyval)) (n_fold n_call n_raise : Z)
    : Prop :=
  exists sd,
    request_stats d = PDict sd /\
    count_field sd "fold" n_fold /\
    count_field sd "call" n_call /\
    count_field sd "raise" n_raise.

(** Two floats with the same value. *)
Definition feq (x y : float) : Prop :=
  match x, y with
  | FNum a, FNum b => (a == b)%Q
  | FInf s, FInf t => s = t
  | FNaN, FNaN => True
  | _, _ => False
  end.

Definition clamp (x lo hi : float) : float :=
  if flt x lo then lo else if flt hi x then hi else x.

(** The fold-frequency estimate as the specification words it, in the
    arithmetic of the program. *)
Definition spec_fold_freq (n_fold n_call n_raise : Z) : float :=
  let n_actions := n_fold + n_call + n_raise in
  if n_actions >? 5
  then clamp (b64 (inject_Z n_fold / inject_Z n_actions)) (b64 0.05) (b64 0.95)
  else b64 0.30.


(** An equity that 800 trials can produce: a number of half points out of
    800. *)
Definition reachable (e : Q) : Prop :=
  exists k : Z, 0 <= k <= 1600 /\ (e == inject_Z k * (1 # 1600))%Q.

(** The expected values and their difference in exact arithmetic. *)
Definition exact_call (ff e : Q) : Q := (2 * ff + (1 - ff) * (4 * e - 2))%Q.
Definition exact_raise (ff e : Q) : Q := (3 * ff + (1 - ff) * (6 * e - 3))%Q.
Definition exact_gap (ff e : Q) : Q := (ff + (1 - ff) * (2 * e - 1))%Q.

(** Half a unit in the last place of a binary64 number below 4, and a bound
    on the rounding error accumulated by the EV calculation. *)
Definition eta : Q := 1 # 4503599627370496.
Definition tol : Q := 1 # 1000000000000.

(** The float [x] is finite and within [d] of [v]. *)
Definition near (x : float) (v d : Q) : Prop :=
  exists r, x = FNum r /\ (v - d <= r <= v + d)%Q.

(** Sortedness of the result of [sorted]. *)
Inductive ascending : list Z -> Prop :=
| asc_nil : ascending []
| asc_one x : ascending [x]
| asc_cons x y l : x <= y -> ascending (y :: l) -> ascending (x :: y :: l).

(** A well-formed dict of counts: distinct keys, positive counts. *)
Definition counts_ok (counts : list (Z * Z)) : Prop :=
  NoDup (map fst counts) /\ Forall (fun kv => 0 < snd kv) counts.

(** ** Sample requests *)

Definition g0 : rng :=
  {| tape := fun i => (7 * i + 3, 11 * i + 5)%nat; pos := 0 |}.

(** King and queen of spades on the ace of spades, ten observed actions. *)
Definition strong_request : list (string * pyval) :=
  [("your_hole", hand "KS" "QS");
   ("table_card", PStr "AS");
   ("opponent_stats", PDict [("fold", PInt 2); ("call", PInt 7); ("raise", PInt 1)]);
   ("total_rounds", PInt 1001)].

(** The same cards with no opponent statistics. *)
Definition default_request : list (string * pyval) :=
  [("your_hole", hand "KS" "QS"); ("table_card", PStr "AS")].

(** The weakest high card, and statistics that are not a mapping. *)
Definition weak_request : list (string * pyval) :=
  [("your_hole", hand "2H" "3D");
   ("table_card", PStr "7S");
   ("opponent_stats", PNone)].

(** A request without table card. *)
Definition empty_request : list (string * pyval) :=
  [("your_hole", hand "KS" "QS"); ("opponent_stats", PStr "none")].

(** [strong_request] without its [total_rounds] field. *)
Definition strong_request_no_rounds : list (string * pyval) :=
  [("your_hole", hand "KS" "QS");
   ("table_card", PStr "AS");
   ("opponent_stats", PDict [("fold", PInt 2); ("call", PInt 7); ("raise", PInt 1)])].

(** The outcome of the Monte Carlo step on a request. *)
Definition equity_of (d : list (string * pyval)) (g : rng) : Q :=
  match fst (monte_carlo (request_hole d) (request_table d) g) with
  | Ok e => e
  | Raise _ => 0%Q
  end.

Definition rng_after (d : list (string * pyval)) (g : rng) : rng :=
  snd (monte_carlo (request_hole d) (request_table d) g).

(** Case analysis on every [Z.min] and [Z.max] of the goal. *)
Ltac elim_minmax :=
  repeat match goal with
         | |- context [Z.min ?x ?y] =>
             let E := fresh "E" in
             destruct (Z.min_spec x y) as [[? E]|[? E]]; rewrite !E
         | |- context [Z.max ?x ?y] =>
             let E := fresh "E" in
             destruct (Z.max_spec x y) as [[? E]|[? E]]; rewrite !E
         end.

(** Case analysis on every comparison of two rationals in the goal. *)
Ltac by_comparisons :=
  repeat match goal with
         | |- context [Qltb ?a ?b] =>
             let E := fresh "E" in
             destruct (Qltb a b) eqn:E; cbn [flt]
         end.

(** ** Further specification-level notions *)

(** The position of a character in a string. *)
Fixpoint index_of (c : ascii) (s : string) : option nat :=
  match s with
  | EmptyString => None
  | String x t => if Ascii.eqb c x then Some O else option_map S (index_of c t)
  end.

(** The 52 cards, in the order in which the deck loops visit them. *)
Definition all_cards : list string :=
  flat_map
    (fun r => map (fun s => String r (String s "")) (list_ascii_of_string "HDSC"))
    (list_ascii_of_string "23456789TJQKA").

(** The card [c] is neither an element of the hole list [l] nor the table
    card: the test of the deck loops. *)
Definition unknown_card (l : list pyval) (table : pyval) (c : string) : bool :=
  negb (existsb (py_eq (PStr c)) l) && py_ne c table.

(** Strong cards against an opponent seen folding 5 times in 9 actions. *)
Definition folder_request : list (string * pyval) :=
  [("your_hole", hand "KS" "QS");
   ("table_card", PStr "AS");
   ("opponent_stats", PDict [("fold", PInt 5); ("call", PInt 3); ("raise", PInt 1)])].

(** Strong cards with statistics that are not a mapping. *)
Definition faulty_request : list (string * pyval) :=
  [("your_hole", hand "KS" "QS");
   ("table_card", PStr "AS");
   ("opponent_stats", PList [PInt 5; PInt 3; PInt 1])].

(** * Properties *)

(** ** Facts about [sorted] *)

#[local] Hint Constructors ascending : core.

Lemma insert_Permutation x l : Permutation (x :: l) (insert x l).
Proof.
  induction l as [|y t IH]; simpl; [reflexivity|].
  destruct (x <=? y); [reflexivity|].
  rewrite perm_swap. now apply perm_skip.
Qed.

Lemma sorted_Permutation l : Permutation l (sorted l).
Proof.
  induction l as [|x t IH]; simpl; [constructor|].
  rewrite <- insert_Permutation. now constructor.
Qed.

Lemma insert_ascending x l : ascending l -> ascending (insert x l).
Proof.
  induction 1 as [|y|y z l Hyz Hl IH]; simpl.
  - constructor.
  - destruct (Z.leb_spec x y); constructor; auto; lia.
  - simpl in IH. destruct (Z.leb_spec x y).
    + constructor; auto.
    + destruct (Z.leb_spec x z); constructor; auto; lia.
Qed.

Lemma sorted_ascending l : ascending (sorted l).
Proof. induction l; simpl; auto using insert_ascending. Qed.

Lemma sorted_length l : List.length (sorted l) = List.length l.
Proof. symmetry. apply Permutation_length, sorted_Permutation. Qed.

(** The sorted form of three values. *)
Lemma sorted_3 a b c :
  sorted [a; b; c] = [min3 a b c; a + b + c - min3 a b c - max3 a b c; max3 a b c].
Proof.
  unfold min3, max3. simpl.
  repeat match goal with
         | |- context [?x <=? ?y] => destruct (Z.leb_spec x y); simpl
         end; f_equal; try (f_equal; [|f_equal]); lia.
Qed.

Lemma mem_In x l : mem x l = true <-> In x l.
Proof.
  unfold mem. rewrite existsb_exists. split.
  - intros (y & Hy & E). apply Z.eqb_eq in E. now subst.
  - intros H. exists x. split; [assumption|apply Z.eqb_refl].
Qed.

Lemma set_eqb_spec l1 l2 :
  set_eqb l1 l2 = true <-> (forall v, In v l1 <-> In v l2).
Proof.
  unfold set_eqb. rewrite andb_true_iff, !forallb_forall. split.
  - intros [H1 H2] v. split; intros Hv.
    + apply mem_In, H1, Hv.
    + apply mem_In, H2, Hv.
  - intros H. split; intros v Hv; apply mem_In, H, Hv.
Qed.

Lemma set_eqb_wheel l : set_eqb l [14; 2; 3] = true <-> wheel_set l.
Proof.
  rewrite set_eqb_spec. unfold wheel_set. simpl.
  split; intros H v; rewrite H; intuition congruence.
Qed.

Lemma perm3_run a b c m :
  a = m /\ b = m + 1 /\ c = m + 2 \/
  a = m /\ b = m + 2 /\ c = m + 1 \/
  a = m + 1 /\ b = m /\ c = m + 2 \/
  a = m + 1 /\ b = m + 2 /\ c = m \/
  a = m + 2 /\ b = m /\ c = m + 1 \/
  a = m + 2 /\ b = m + 1 /\ c = m ->
  exists x y z, Permutation [a; b; c] [x; y; z] /\ x + 1 = y /\ y + 1 = z.
Proof.
  intros H. exists m, (m + 1), (m + 2). split; [|lia].
  destruct H as [H|[H|[H|[H|[H|H]]]]]; destruct H as (-> & -> & ->).
  - reflexivity.
  - apply perm_skip, perm_swap.
  - apply perm_swap.
  - apply Permutation_sym, (Permutation_cons_app [m + 1; m + 2] []).
    reflexivity.
  - apply (Permutation_cons_app [m; m + 1] []). reflexivity.
  - apply (Permutation_cons_app [m; m + 1] []). apply perm_swap.
Qed.

Lemma run3_iff a b c :
  run3 a b c <->
  max3 a b c = min3 a b c + 2 /\ a + b + c = 3 * min3 a b c + 3.
Proof.
  unfold run3, max3, min3. split.
  - intros (x & y & z & P & <- & <-).
    assert (Ha : In a [x; x + 1; x + 1 + 1])
      by (apply (Permutation_in _ P); simpl; auto).
    assert (Hb : In b [x; x + 1; x + 1 + 1])
      by (apply (Permutation_in _ P); simpl; auto).
    assert (Hc : In c [x; x + 1; x + 1 + 1])
      by (apply (Permutation_in _ P); simpl; auto).
    assert (N : NoDup [a; b; c]).
    { apply (Permutation_NoDup (Permutation_sym P)).
      repeat constructor; simpl; lia. }
    inversion N as [|? ? Nab N']; subst. inversion N' as [|? ? Nbc _]; subst.
    simpl in Ha, Hb, Hc, Nab, Nbc. lia.
  - intros [H1 H2].
    apply (perm3_run a b c (Z.min a (Z.min b c))).
    revert H1 H2. elim_minmax; lia.
Qed.

(** ** [is_straight_3] *)

Lemma wheel_set_Permutation l l' :
  Permutation l l' -> wheel_set l -> wheel_set l'.
Proof.
  intros P W v. rewrite <- (W v). split; apply Permutation_in; auto.
  now apply Permutation_sym.
Qed.

Lemma wheel_set_sorted l : wheel_set (sorted l) <-> wheel_set l.
Proof.
  split; apply wheel_set_Permutation;
    [apply Permutation_sym|]; apply sorted_Permutation.
Qed.

(** What [is_straight_3] computes on three values. *)
Lemma is_straight_3_eq a b c :
  is_straight_3 [a; b; c] =
  if (min3 a b c + 1 =? a + b + c - min3 a b c - max3 a b c)
     && (a + b + c - min3 a b c - max3 a b c + 1 =? max3 a b c)
  then Ok (true, max3 a b c)
  else if set_eqb (sorted [a; b; c]) [14; 2; 3] then Ok (true, 3)
  else Ok (false, 0).
Proof.
  unfold is_straight_3. rewrite sorted_3. cbn [idx nth_error rbind].
  destruct (_ + 1 =? _); cbn [rbind andb]; [|reflexivity].
  destruct (_ + 1 =? _); reflexivity.
Qed.

Lemma wheel_set_3 a b c :
  wheel_set [a; b; c] ->
  min3 a b c = 2 /\ max3 a b c = 14 /\ a + b + c = 19.
Proof.
  intros W. unfold min3, max3.
  assert (Ha : a = 14 \/ a = 2 \/ a = 3) by (apply W; simpl; auto).
  assert (Hb : b = 14 \/ b = 2 \/ b = 3) by (apply W; simpl; auto).
  assert (Hc : c = 14 \/ c = 2 \/ c = 3) by (apply W; simpl; auto).
  assert (H14 : In 14 [a; b; c]) by (apply W; auto).
  assert (H2 : In 2 [a; b; c]) by (apply W; auto).
  assert (H3 : In 3 [a; b; c]) by (apply W; auto).
  simpl in H14, H2, H3. elim_minmax; lia.
Qed.

(** C4: on three rank values, [is_straight_3] answers [(True, max)] exactly
    for a run of consecutive values, [(True, 3)] exactly for the wheel set
    [{14, 2, 3}], and [(False, 0)] in every other case, in particular whenever
    a value is duplicated. *)
Theorem is_straight_3_spec a b c :
  is_rank a -> is_rank b -> is_rank c ->
  (is_straight_3 [a; b; c] = Ok (true, max3 a b c) <-> run3 a b c) /\
  (is_straight_3 [a; b; c] = Ok (true, 3) <-> wheel_set [a; b; c]) /\
  (~ run3 a b c -> ~ wheel_set [a; b; c] ->
   is_straight_3 [a; b; c] = Ok (false, 0)) /\
  (a = b \/ b = c \/ a = c -> is_straight_3 [a; b; c] = Ok (false, 0)).
Proof.
  intros Ra Rb Rc. unfold is_rank in *.
  rewrite is_straight_3_eq.
  assert (Hrun : (min3 a b c + 1 =? a + b + c - min3 a b c - max3 a b c)
                 && (a + b + c - min3 a b c - max3 a b c + 1 =? max3 a b c)
                 = true <-> run3 a b c).
  { rewrite run3_iff, andb_true_iff, !Z.eqb_eq. lia. }
  assert (Hlo : 2 <= min3 a b c) by (unfold min3; lia).
  pose proof (set_eqb_wheel (sorted [a; b; c])) as Hwheel.
  rewrite wheel_set_sorted in Hwheel.
  destruct (_ && _) eqn:Econs.
  - assert (R : run3 a b c) by now apply Hrun.
    pose proof (proj1 (run3_iff a b c) R) as [R1 R2].
    split; [tauto|]. split; [split|split].
    + intros E. assert (max3 a b c = 3) by congruence. lia.
    + intros W. pose proof (wheel_set_3 a b c W). lia.
    + tauto.
    + intros D. unfold min3, max3 in *. revert R1 R2. elim_minmax; lia.
  - assert (NR : ~ run3 a b c).
    { intros R. apply Hrun in R. discriminate. }
    destruct (set_eqb _ _) eqn:Ewheel.
    + assert (W : wheel_set [a; b; c]) by now apply Hwheel.
      pose proof (wheel_set_3 a b c W) as (W1 & W2 & W3).
      split; [split|split; [tauto|split]].
      * intros E. assert (max3 a b c = 3) by congruence. lia.
      * tauto.
      * tauto.
      * intros D. unfold min3, max3 in *. revert W1 W2 W3. elim_minmax; lia.
    + assert (NW : ~ wheel_set [a; b; c]).
      { intros W. apply Hwheel in W. discriminate. }
      split; [split; [discriminate|tauto]|].
      split; [split; [discriminate|tauto]|]. auto.
Qed.

(** ** The dict of rank-value counts *)

Section Counts.

Lemma counts_incr_keys v counts u :
  In u (map fst (counts_incr v counts)) <-> u = v \/ In u (map fst counts).
Proof.
  induction counts as [|[k n] t IH]; simpl.
  - intuition.
  - destruct (Z.eqb_spec k v); simpl; rewrite ?IH; intuition congruence.
Qed.

Lemma counts_incr_ok v counts :
  counts_ok counts -> counts_ok (counts_incr v counts).
Proof.
  unfold counts_ok. induction counts as [|[k n] t IH]; simpl.
  - intros _. split; repeat constructor; simpl; auto; lia.
  - intros [ND F]. inversion ND as [|? ? Hk ND']; subst.
    inversion F as [|? ? Hn F']; subst. simpl in Hn.
    destruct (Z.eqb_spec k v); simpl.
    + split; constructor; simpl; auto; lia.
    + destruct (IH (conj ND' F')) as [ND'' F''].
      split; constructor; simpl; auto.
      rewrite counts_incr_keys. intuition.
Qed.

Lemma counts_get_incr v counts u :
  counts_get u (counts_incr v counts) =
  counts_get u counts + (if v =? u then 1 else 0).
Proof.
  induction counts as [|[k n] t IH]; simpl.
  - reflexivity.
  - destruct (Z.eqb_spec k v); simpl.
    + subst. destruct (Z.eqb_spec v u); lia.
    + rewrite IH. destruct (Z.eqb_spec k u), (Z.eqb_spec v u); lia.
Qed.

Lemma fold_counts_ok l : forall counts,
  counts_ok counts ->
  counts_ok (fold_left (fun counts v => counts_incr v counts) l counts).
Proof.
  induction l as [|x t IH]; simpl; intros counts H; auto.
  apply IH, counts_incr_ok, H.
Qed.

Lemma fold_counts_get l u : forall counts,
  counts_get u (fold_left (fun counts v => counts_incr v counts) l counts) =
  counts_get u counts + Z.of_nat (occurrences l u).
Proof.
  unfold occurrences.
  induction l as [|x t IH]; simpl; intros counts; [lia|].
  rewrite IH, counts_get_incr.
  destruct (Z.eq_dec x u), (Z.eqb_spec x u); try contradiction; lia.
Qed.

Lemma counts_get_In counts k n :
  NoDup (map fst counts) -> In (k, n) counts -> counts_get k counts = n.
Proof.
  induction counts as [|[k' n'] t IH]; simpl; [tauto|].
  intros ND [E|H]; inversion ND as [|? ? Hk ND']; subst.
  - injection E as -> ->. now rewrite Z.eqb_refl.
  - destruct (Z.eqb_spec k' k); auto.
    subst. exfalso. apply Hk. now apply (in_map fst) in H.
Qed.

Lemma counts_get_pos counts k :
  0 < counts_get k counts -> In (k, counts_get k counts) counts.
Proof.
  induction counts as [|[k' n'] t IH]; simpl; [lia|].
  destruct (Z.eqb_spec k' k); subst; auto.
Qed.

(** [n in counts.values()] after the counting loop: some value appears
    exactly [n] times. *)
Lemma in_values_count_values (n : nat) vals :
  (0 < n)%nat ->
  in_values (Z.of_nat n) (count_values vals) = true <->
  exists v, occurrences vals v = n.
Proof.
  intros Hn. unfold in_values, count_values.
  assert (OK : counts_ok
            (fold_left (fun counts v => counts_incr v counts) vals []))
    by (apply fold_counts_ok; split; constructor).
  pose proof (fun u => fold_counts_get vals u []) as G. simpl in G.
  rewrite existsb_exists. split.
  - intros ([k m] & Hin & E). simpl in E. apply Z.eqb_eq in E. subst m.
    exists k. apply (counts_get_In _ _ _ (proj1 OK)) in Hin.
    rewrite G in Hin. lia.
  - intros (v & Hv). exists (v, Z.of_nat n). split.
    + specialize (G v). rewrite Hv in G. rewrite <- G.
      apply counts_get_pos. lia.
    + simpl. apply Z.eqb_refl.
Qed.

End Counts.

(** ** Card tokens *)

Lemma assoc_In {V : Type} k (d : list (string * V)) v :
  assoc k d = Some v -> In (k, v) d.
Proof.
  induction d as [|[k' v'] t IH]; simpl; [discriminate|].
  destruct (String.eqb_spec k k'); intros H.
  - left. congruence.
  - right. auto.
Qed.

Lemma rank_lookup_range k v : rank_lookup k = Ok v -> is_rank v.
Proof.
  unfold rank_lookup, is_rank.
  destruct k; try discriminate.
  destruct (assoc s RANK_VALUE) eqn:E; [|discriminate].
  intros [= ->]. apply assoc_In in E. simpl in E.
  repeat (destruct E as [E|E]; [injection E as _ <-; lia|]).
  contradiction.
Qed.

(** A token that parses yields a rank value and a one-character suit. *)
Lemma parse_card_token c v s :
  parse_card (PStr c) = Ok (v, s) ->
  is_rank v /\ exists x, s = PStr (String x "").
Proof.
  unfold parse_card, py_getitem.
  destruct c as [|c0 [|c1 rest]]; cbn [String.get rbind]; try discriminate.
  - destruct (rank_lookup _); discriminate.
  - destruct (rank_lookup _) eqn:E; cbn [rbind]; [|discriminate].
    intros [= <- <-]. split; [eapply rank_lookup_range; eauto|eauto].
Qed.

Lemma is_straight_3_total a b c :
  exists st high, is_straight_3 [a; b; c] = Ok (st, high).
Proof.
  rewrite is_straight_3_eq.
  destruct (_ && _); [eauto|]. destruct (set_eqb _ _); eauto.
Qed.

(** ** [hand_category] *)

Lemma flush_tokens x1 x2 x3 :
  exists S,
    py_set [PStr x1; PStr x2; PStr x3] = Ok S /\
    (Nat.eqb (List.length S) 1 = true <-> flush (PStr x1) (PStr x2) (PStr x3)).
Proof.
  unfold flush. cbn [py_set hashable rbind existsb py_eq orb].
  destruct (String.eqb_spec x2 x3) as [E23|N23]; cbn [existsb py_eq orb].
  - destruct (String.eqb_spec x1 x3) as [E13|N13]; cbn [orb].
    + eexists. split; [reflexivity|]. subst. simpl. tauto.
    + eexists. split; [reflexivity|]. simpl.
      split; [discriminate|]. intros [[= A] [= B]]. congruence.
  - destruct (String.eqb_spec x1 x2) as [E12|N12]; cbn [orb].
    + eexists. split; [reflexivity|]. simpl.
      split; [discriminate|]. intros [[= A] [= B]]. congruence.
    + destruct (String.eqb_spec x1 x3) as [E13|N13]; cbn [orb];
        (eexists; split; [reflexivity|]; simpl;
         split; [discriminate|]; intros [[= A] [= B]]; congruence).
Qed.

(** The rule chain of [hand_category], given the truth value of each
    condition. *)
Lemma first_match_chain (S F T P : Prop) (s f t p : bool) :
  (s = true <-> S) -> (f = true <-> F) -> (t = true <-> T) ->
  (p = true <-> P) ->
  first_match [(S /\ F, 5); (T, 4); (S, 3); (F, 2); (P, 1)] 0
    (if s && f then 5 else if t then 4 else if s then 3
     else if f then 2 else if p then 1 else 0).
Proof.
  intros Hs Hf Ht Hp. simpl.
  destruct s, f, t, p; simpl; intuition congruence.
Qed.

(** [hand_category] on three parseable tokens, step by step. *)
Lemma hand_category_tokens c1 c2 t v1 v2 v3 s1 s2 s3 :
  parse_card (PStr c1) = Ok (v1, s1) ->
  parse_card (PStr c2) = Ok (v2, s2) ->
  parse_card (PStr t) = Ok (v3, s3) ->
  exists f st high,
    (f = true <-> flush s1 s2 s3) /\
    is_straight_3 [v1; v2; v3] = Ok (st, high) /\
    hand_category (hand c1 c2) (PStr t) =
    Ok (if st && f then 5
        else if in_values 3 (count_values [v1; v2; v3]) then 4
        else if st then 3
        else if f then 2
        else if in_values 2 (count_values [v1; v2; v3]) then 1
        else 0).
Proof.
  intros H1 H2 H3.
  destruct (parse_card_token _ _ _ H1) as (_ & x1 & ->).
  destruct (parse_card_token _ _ _ H2) as (_ & x2 & ->).
  destruct (parse_card_token _ _ _ H3) as (_ & x3 & ->).
  unfold hand_category, hand.
  cbn [py_list_concat app rbind mapM]. rewrite H1, H2, H3.
  cbn [rbind map fst snd].
  destruct (flush_tokens (String x1 "") (String x2 "") (String x3 ""))
    as (S & -> & HF).
  destruct (is_straight_3_total v1 v2 v3) as (st & high & HS).
  rewrite HS. cbn [rbind].
  exists (Nat.eqb (List.length S) 1), st, high.
  split; [exact HF|]. split; [reflexivity|].
  repeat match goal with
         | |- context [if ?b then _ else _] => destruct b
         end; reflexivity.
Qed.

Lemma category_range (s f t p : bool) :
  0 <= (if s && f then 5 else if t then 4 else if s then 3
        else if f then 2 else if p then 1 else 0) <= 5.
Proof. destruct s, f, t, p; simpl; lia. Qed.

(** C2: on three parseable tokens [hand_category] returns the category of
    the first matching rule, in the order straight flush (5), three of a
    kind (4), straight (3), flush (2), pair (1), high card (0); the result
    is between 0 and 5. *)
Theorem hand_category_spec c1 c2 t v1 v2 v3 s1 s2 s3 :
  parse_card (PStr c1) = Ok (v1, s1) ->
  parse_card (PStr c2) = Ok (v2, s2) ->
  parse_card (PStr t) = Ok (v3, s3) ->
  exists k,
    hand_category (hand c1 c2) (PStr t) = Ok k /\
    first_match
      [(straight [v1; v2; v3] /\ flush s1 s2 s3, 5);
       (three_of_a_kind [v1; v2; v3], 4);
       (straight [v1; v2; v3], 3);
       (flush s1 s2 s3, 2);
       (pair [v1; v2; v3], 1)] 0 k /\
    0 <= k <= 5.
Proof.
  intros H1 H2 H3.
  destruct (hand_category_tokens _ _ _ _ _ _ _ _ _ H1 H2 H3)
    as (f & st & high & HF & HS & ->).
  assert (Hst : st = true <-> straight [v1; v2; v3]).
  { unfold straight. rewrite HS. split.
    - intros ->. eauto.
    - intros (h & [= -> _]). reflexivity. }
  pose proof (in_values_count_values 3 [v1; v2; v3] ltac:(lia)) as HT.
  pose proof (in_values_count_values 2 [v1; v2; v3] ltac:(lia)) as HP.
  change (Z.of_nat 3) with 3 in HT. change (Z.of_nat 2) with 2 in HP.
  eexists. split; [reflexivity|]. split.
  - exact (first_match_chain _ _ _ _ _ _ _ _ Hst HF HT HP).
  - apply category_range.
Qed.

(** ** Facts about [sorted_reverse] *)

#[local] Hint Constructors descending : core.

Lemma ascending_head x l : ascending (x :: l) -> Forall (fun y => x <= y) l.
Proof.
  revert x. induction l as [|y t IH]; intros x H; constructor;
    inversion H; subst; auto.
  specialize (IH _ H4). eapply Forall_impl; [|exact IH].
  simpl. intros. lia.
Qed.

Lemma descending_snoc l x :
  descending l -> Forall (fun y => x <= y) l -> descending (l ++ [x]).
Proof.
  induction 1 as [|y|y z l Hyz Hl IH]; simpl; intros F.
  - constructor.
  - inversion F; subst. auto.
  - inversion F; subst. constructor; auto.
Qed.

Lemma ascending_rev l : ascending l -> descending (rev l).
Proof.
  induction l as [|x t IH]; simpl; intros H; [constructor|].
  apply descending_snoc.
  - apply IH. inversion H; subst; auto.
  - apply Forall_rev, ascending_head, H.
Qed.

Lemma sorted_reverse_descending l : descending (sorted_reverse l).
Proof. apply ascending_rev, sorted_ascending. Qed.

Lemma sorted_reverse_Permutation l : Permutation l (sorted_reverse l).
Proof.
  unfold sorted_reverse. rewrite <- Permutation_rev. apply sorted_Permutation.
Qed.

Lemma sorted_reverse_length l :
  List.length (sorted_reverse l) = List.length l.
Proof. symmetry. apply Permutation_length, sorted_reverse_Permutation. Qed.

Lemma set_eqb_wheel_reverse l :
  set_eqb (sorted_reverse l) [14; 3; 2] = true <-> wheel_set l.
Proof.
  rewrite set_eqb_spec. unfold wheel_set.
  assert (P : forall v, In v l <-> In v (sorted_reverse l)).
  { intros v. split; apply Permutation_in;
      [|apply Permutation_sym]; apply sorted_reverse_Permutation. }
  split; intros H v; specialize (H v); specialize (P v); simpl in *;
    intuition (subst; auto).
Qed.

Lemma descending_head x l : descending (x :: l) -> Forall (fun y => y <= x) l.
Proof.
  revert x. induction l as [|y t IH]; intros x H; constructor;
    inversion H; subst; auto.
  specialize (IH _ H4). eapply Forall_impl; [|exact IH].
  simpl. intros. lia.
Qed.

Lemma descending_tail x l : descending (x :: l) -> descending l.
Proof. intros H. inversion H; subst; auto. Qed.

(** A list has at most one descending arrangement. *)
Lemma descending_unique l1 : forall l2,
  descending l1 -> descending l2 -> Permutation l1 l2 -> l1 = l2.
Proof.
  induction l1 as [|x t IH]; intros l2 D1 D2 P.
  - apply Permutation_nil in P. now subst.
  - destruct l2 as [|y u].
    + apply Permutation_sym, Permutation_nil in P. discriminate.
    + assert (x = y).
      { pose proof (descending_head _ _ D1) as F1.
        pose proof (descending_head _ _ D2) as F2.
        rewrite Forall_forall in F1, F2.
        assert (Ix : In x (y :: u)) by (apply (Permutation_in _ P); simpl; auto).
        assert (Iy : In y (x :: t))
          by (apply (Permutation_in _ (Permutation_sym P)); simpl; auto).
        destruct Ix as [Ex|Ix]; [auto|].
        destruct Iy as [Ey|Iy]; [auto|].
        apply F2 in Ix. apply F1 in Iy. lia. }
      subst y. f_equal. apply IH.
      * eapply descending_tail; eauto.
      * eapply descending_tail; eauto.
      * eapply Permutation_cons_inv; eauto.
Qed.

(** The tie-break sequence of a hand is determined by its category and
    values. *)
Lemma tie_break_seq_functional cat vals s1 s2 :
  tie_break_seq cat vals s1 -> tie_break_seq cat vals s2 -> s1 = s2.
Proof.
  unfold tie_break_seq.
  intros [(C1 & W1 & ->)|(N1 & P1 & D1)] [(C2 & W2 & ->)|(N2 & P2 & D2)];
    try tauto.
  apply descending_unique; auto.
  now rewrite <- P1.
Qed.

(** ** The comparison loop *)

Lemma compare_loop_outcome sa : forall sb,
  List.length sa = List.length sb ->
  lex_outcome sa sb (compare_loop (combine sa sb)).
Proof.
  unfold lex_outcome.
  induction sa as [|m sa IH]; intros [|o sb] L; try discriminate.
  - right. auto.
  - simpl. destruct (Z.gtb_spec m o) as [Hmo|Hmo].
    + left. exists 0%nat, m, o. repeat split; auto; try lia.
      destruct (Z.gtb_spec m o); [reflexivity|lia].
    + destruct (Z.gtb_spec o m) as [Hom|Hom].
      * left. exists 0%nat, m, o. repeat split; auto; try lia.
        destruct (Z.gtb_spec m o); [lia|reflexivity].
      * assert (m = o) by lia. subst o.
        destruct (IH sb ltac:(simpl in L; lia))
          as [(i & m' & o' & Hpre & Hm & Ho & Hne & Hr)|[-> Hr]].
        -- left. exists (S i), m', o'. repeat split; auto.
           intros [|j] Hj; simpl; [reflexivity|apply Hpre; lia].
        -- right. auto.
Qed.

Lemma compare_loop_swap sa : forall sb,
  (compare_loop (combine sa sb) == 1 - compare_loop (combine sb sa))%Q.
Proof.
  induction sa as [|m sa IH]; intros [|o sb]; simpl; try reflexivity.
  destruct (Z.gtb_spec m o), (Z.gtb_spec o m); try lia; try reflexivity.
  apply IH.
Qed.

Lemma compare_loop_values l :
  compare_loop l = 1.0%Q \/ compare_loop l = 0.0%Q \/ compare_loop l = 0.5%Q.
Proof.
  induction l as [|[m o] t IH]; simpl; auto.
  destruct (m >? o); auto. destruct (o >? m); auto.
Qed.

(** ** [compare_hands_internal] *)

Lemma card_values_tokens c1 c2 t v1 v2 v3 s1 s2 s3 :
  parse_card (PStr c1) = Ok (v1, s1) ->
  parse_card (PStr c2) = Ok (v2, s2) ->
  parse_card (PStr t) = Ok (v3, s3) ->
  card_values (hand c1 c2) (PStr t) = Ok [v1; v2; v3].
Proof.
  intros H1 H2 H3. unfold card_values, hand.
  cbn [py_list_concat app rbind mapM]. now rewrite H1, H2, H3.
Qed.

(** [compare_hands_internal] once both categories and both value lists are
    known. *)
Lemma compare_unfold A B t ka kb va vb :
  hand_category A t = Ok ka -> hand_category B t = Ok kb ->
  card_values A t = Ok va -> card_values B t = Ok vb ->
  compare_hands_internal A t B =
  Ok (if ka >? kb then 1.0%Q
      else if kb >? ka then 0.0%Q
      else compare_loop
             (combine
                (if ((ka =? 5) || (ka =? 3))
                    && set_eqb (sorted_reverse va) [14; 3; 2]
                 then [3; 2; 1] else sorted_reverse va)
                (if ((ka =? 5) || (ka =? 3))
                    && set_eqb (sorted_reverse vb) [14; 3; 2]
                 then [3; 2; 1] else sorted_reverse vb))).
Proof.
  intros HA HB VA VB. unfold compare_hands_internal.
  rewrite HA, HB. cbn [rbind]. rewrite VA, VB. cbn [rbind].
  destruct (ka >? kb); [reflexivity|]. destruct (kb >? ka); reflexivity.
Qed.

(** The sequence that the code compares is the tie-break sequence. *)
Lemma tie_break_code cat vals :
  tie_break_seq cat vals
    (if ((cat =? 5) || (cat =? 3)) && set_eqb (sorted_reverse vals) [14; 3; 2]
     then [3; 2; 1] else sorted_reverse vals).
Proof.
  unfold tie_break_seq.
  pose proof (set_eqb_wheel_reverse vals) as W.
  assert (C : (cat =? 5) || (cat =? 3) = true <-> cat = 5 \/ cat = 3)
    by (rewrite orb_true_iff, !Z.eqb_eq; tauto).
  destruct (_ || _); destruct (set_eqb _ _); simpl.
  - left. intuition.
  - right. split; [|split].
    + intros (_ & H). apply W in H. discriminate.
    + apply sorted_reverse_Permutation.
    + apply sorted_reverse_descending.
  - right. split; [|split].
    + intros (H & _). apply C in H. discriminate.
    + apply sorted_reverse_Permutation.
    + apply sorted_reverse_descending.
  - right. split; [|split].
    + intros (H & _). apply C in H. discriminate.
    + apply sorted_reverse_Permutation.
    + apply sorted_reverse_descending.
Qed.

Lemma tie_break_code_length cat vals :
  List.length vals = 3%nat ->
  List.length
    (if ((cat =? 5) || (cat =? 3)) && set_eqb (sorted_reverse vals) [14; 3; 2]
     then [3; 2; 1] else sorted_reverse vals) = 3%nat.
Proof.
  intros L. destruct (_ && _); [reflexivity|].
  now rewrite sorted_reverse_length.
Qed.

(** C3: on parseable tokens [compare_hands_internal] lets the higher
    category win; on equal categories it compares the tie-break sequences
    (values in descending order, the wheel replaced by [[3; 2; 1]] in
    categories 5 and 3) element by element, the first difference deciding; it
    returns 0.5 only when the categories and the three positions are equal. *)
Theorem compare_hands_internal_spec
    a1 a2 b1 b2 t va1 va2 vb1 vb2 vt sa1 sa2 sb1 sb2 st :
  parse_card (PStr a1) = Ok (va1, sa1) ->
  parse_card (PStr a2) = Ok (va2, sa2) ->
  parse_card (PStr b1) = Ok (vb1, sb1) ->
  parse_card (PStr b2) = Ok (vb2, sb2) ->
  parse_card (PStr t) = Ok (vt, st) ->
  exists ka kb sa sb r,
    hand_category (hand a1 a2) (PStr t) = Ok ka /\
    hand_category (hand b1 b2) (PStr t) = Ok kb /\
    tie_break_seq ka [va1; va2; vt] sa /\
    tie_break_seq kb [vb1; vb2; vt] sb /\
    List.length sa = 3%nat /\ List.length sb = 3%nat /\
    compare_hands_internal (hand a1 a2) (PStr t) (hand b1 b2) = Ok r /\
    (ka > kb -> r = 1.0%Q) /\
    (kb > ka -> r = 0.0%Q) /\
    (ka = kb -> lex_outcome sa sb r) /\
    ((r == 0.5)%Q -> ka = kb /\ sa = sb).
Proof.
  intros HA1 HA2 HB1 HB2 HT.
  destruct (hand_category_tokens _ _ _ _ _ _ _ _ _ HA1 HA2 HT)
    as (fa & sta & ha & _ & _ & HA).
  destruct (hand_category_tokens _ _ _ _ _ _ _ _ _ HB1 HB2 HT)
    as (fb & stb & hb & _ & _ & HB).
  pose proof (card_values_tokens _ _ _ _ _ _ _ _ _ HA1 HA2 HT) as VA.
  pose proof (card_values_tokens _ _ _ _ _ _ _ _ _ HB1 HB2 HT) as VB.
  pose proof (compare_unfold _ _ _ _ _ _ _ HA HB VA VB) as E.
  set (ka := if sta && fa then 5 else _) in *.
  set (kb := if stb && fb then 5 else _) in *.
  clearbody ka kb.
  exists ka, kb.
  eexists. eexists. eexists.
  split; [exact HA|]. split; [exact HB|].
  split; [apply tie_break_code|]. split; [apply tie_break_code|].
  split; [now apply tie_break_code_length|].
  split; [now apply tie_break_code_length|].
  split; [exact E|].
  destruct (Z.gtb_spec ka kb) as [G1|G1].
  { split; [reflexivity|]. split; [lia|]. split; [lia|].
    intros Q. exfalso. revert Q. clear. unfold Qeq; simpl; lia. }
  destruct (Z.gtb_spec kb ka) as [G2|G2].
  { split; [lia|]. split; [reflexivity|]. split; [lia|].
    intros Q. exfalso. revert Q. clear. unfold Qeq; simpl; lia. }
  assert (ka = kb) by lia. subst kb.
  pose proof (compare_loop_outcome _ _
                (eq_trans
                   (tie_break_code_length ka [va1; va2; vt] eq_refl)
                   (eq_sym (tie_break_code_length ka [vb1; vb2; vt] eq_refl))))
    as L.
  split; [lia|]. split; [lia|]. split; [intros _; exact L|].
  intros Q. split; [reflexivity|].
  destruct L as [(i & m & o & _ & _ & _ & _ & R)|[S _]]; [|exact S].
  exfalso. rewrite R in Q. revert Q. clear.
  destruct (m >? o); unfold Qeq; simpl; lia.
Qed.

(** Swapping the two hole pairs complements the outcome. *)
Lemma compare_swap A B t ka kb va vb :
  hand_category A t = Ok ka -> hand_category B t = Ok kb ->
  card_values A t = Ok va -> card_values B t = Ok vb ->
  exists x y,
    compare_hands_internal A t B = Ok x /\
    compare_hands_internal B t A = Ok y /\
    (x == 1 - y)%Q.
Proof.
  intros HA HB VA VB.
  rewrite (compare_unfold _ _ _ _ _ _ _ HA HB VA VB).
  rewrite (compare_unfold _ _ _ _ _ _ _ HB HA VB VA).
  eexists. eexists. split; [reflexivity|]. split; [reflexivity|].
  destruct (Z.gtb_spec ka kb), (Z.gtb_spec kb ka); try lia;
    try reflexivity.
  assert (ka = kb) by lia. subst kb. apply compare_loop_swap.
Qed.

(** C7: on parseable tokens [compare(A, t, B) = 1 - compare(B, t, A)], so a
    tie one way is a tie the other way. *)
Theorem compare_hands_internal_antisymmetric
    a1 a2 b1 b2 t va1 va2 vb1 vb2 vt sa1 sa2 sb1 sb2 st :
  parse_card (PStr a1) = Ok (va1, sa1) ->
  parse_card (PStr a2) = Ok (va2, sa2) ->
  parse_card (PStr b1) = Ok (vb1, sb1) ->
  parse_card (PStr b2) = Ok (vb2, sb2) ->
  parse_card (PStr t) = Ok (vt, st) ->
  exists x y,
    compare_hands_internal (hand a1 a2) (PStr t) (hand b1 b2) = Ok x /\
    compare_hands_internal (hand b1 b2) (PStr t) (hand a1 a2) = Ok y /\
    (x == 1 - y)%Q /\
    ((x == 0.5)%Q <-> (y == 0.5)%Q).
Proof.
  intros HA1 HA2 HB1 HB2 HT.
  destruct (hand_category_tokens _ _ _ _ _ _ _ _ _ HA1 HA2 HT)
    as (fa & sta & ha & _ & _ & HA).
  destruct (hand_category_tokens _ _ _ _ _ _ _ _ _ HB1 HB2 HT)
    as (fb & stb & hb & _ & _ & HB).
  pose proof (card_values_tokens _ _ _ _ _ _ _ _ _ HA1 HA2 HT) as VA.
  pose proof (card_values_tokens _ _ _ _ _ _ _ _ _ HB1 HB2 HT) as VB.
  destruct (compare_swap _ _ _ _ _ _ _ HA HB VA VB) as (x & y & Hx & Hy & E).
  exists x, y. repeat split; auto; intros Q; lra.
Qed.

(** ** The decision engine *)

Lemma Qltb_lt x y : Qltb x y = true <-> (x < y)%Q.
Proof.
  unfold Qltb. rewrite negb_true_iff. split.
  - intros H. apply Qnot_le_lt. intros L.
    apply Qle_bool_iff in L. congruence.
  - intros H. destruct (Qle_bool y x) eqn:E; [|reflexivity].
    apply Qle_bool_iff in E. apply Qlt_not_le in H. contradiction.
Qed.

Lemma Qltb_ge x y : Qltb x y = false <-> (y <= x)%Q.
Proof.
  unfold Qltb. rewrite negb_false_iff. apply Qle_bool_iff.
Qed.

Lemma Qltb_inject a b : Qltb (inject_Z a) (inject_Z b) = (b >? a).
Proof.
  destruct (Z.gtb_spec b a) as [H|H].
  - apply Qltb_lt. rewrite <- Zlt_Qlt. lia.
  - apply Qltb_ge. rewrite <- Zle_Qle. lia.
Qed.

Lemma count_field_get sd key n :
  count_field sd key n -> dict_get sd key (PInt 0) = PInt n.
Proof.
  unfold count_field, dict_get. intros (_ & [->|[-> ->]]); reflexivity.
Qed.

(** [decide_body] on a dict: validation, then the Monte Carlo step, then the
    strategic logic on the opponent statistics. *)
Lemma decide_body_dict d g :
  decide_body (PDict d) g =
  if negb (truthy (request_hole d)) || negb (truthy (request_table d))
  then (Ok RetEmpty, g)
  else
    match monte_carlo (request_hole d) (request_table d) g with
    | (Ok e, g') => (strategic_logic (request_stats d) e, g')
    | (Raise x, g') => (Raise x, g')
    end.
Proof.
  unfold decide_body, bind, lift, py_get, request_hole, request_table,
    request_stats.
  destruct (_ || _); reflexivity.
Qed.

Lemma decide_body_not_dict state g :
  (forall d, state <> PDict d) ->
  decide_body state g = (Raise AttributeError, g).
Proof.
  intros H. destruct state; try reflexivity. now destruct (H d).
Qed.

Lemma decide_body_valid d g e g' :
  valid_request d -> computed_equity d g e g' ->
  decide_body (PDict d) g = (strategic_logic (request_stats d) e, g').
Proof.
  intros [Hh Ht] He. rewrite decide_body_dict, Hh, Ht. cbn [negb orb].
  unfold computed_equity in He. now rewrite He.
Qed.

(** The falsy requests of the validation step include the empty hole list,
    the empty table card and the missing fields. *)
Lemma empty_hole_falsy d :
  request_hole d = PList [] -> truthy (request_hole d) = false.
Proof. now intros ->. Qed.

Lemma empty_table_falsy d :
  request_table d = PStr "" -> truthy (request_table d) = false.
Proof. now intros ->. Qed.

Lemma missing_hole_falsy d :
  assoc "your_hole" d = None -> truthy (request_hole d) = false.
Proof. unfold request_hole, dict_get. now intros ->. Qed.

Lemma missing_table_falsy d :
  assoc "table_card" d = None -> truthy (request_table d) = false.
Proof. unfold request_table, dict_get. now intros ->. Qed.

(** C8: when the hole cards are empty or the table card is empty or
    missing, [decide_action] returns FOLD at the validation step, whatever
    the other fields hold and without drawing from the generator. *)
Theorem empty_request_folds d g :
  truthy (request_hole d) = false \/ truthy (request_table d) = false ->
  decide_body (PDict d) g = (Ok RetEmpty, g) /\
  decide_action (PDict d) g = ("FOLD", g).
Proof.
  intros H.
  assert (B : decide_body (PDict d) g = (Ok RetEmpty, g)).
  { rewrite decide_body_dict. destruct H as [-> | ->]; cbn [negb orb].
    - reflexivity.
    - now rewrite orb_true_r. }
  split; [exact B|]. unfold decide_action. now rewrite B.
Qed.

Lemma dict_get_agree d1 d2 key default :
  assoc key d1 = assoc key d2 -> dict_get d1 key default = dict_get d2 key default.
Proof. unfold dict_get. now intros ->. Qed.

(** C10: two requests that differ only in [total_rounds] (present with any
    value, or absent) get the same action under the same sampling outcomes. *)
Theorem total_rounds_unused d1 d2 g :
  (forall key, key <> "total_rounds" -> assoc key d1 = assoc key d2) ->
  decide_action (PDict d1) g = decide_action (PDict d2) g.
Proof.
  intros H. unfold decide_action. rewrite !decide_body_dict.
  unfold request_hole, request_table, request_stats.
  rewrite (dict_get_agree d1 d2 "your_hole"),
    (dict_get_agree d1 d2 "table_card"),
    (dict_get_agree d1 d2 "opponent_stats");
    try (apply H; discriminate).
  reflexivity.
Qed.

Lemma coerce_valid a : In a VALID_ACTIONS -> coerce a = a.
Proof.
  unfold VALID_ACTIONS. simpl.
  intros [<-|[<-|[<-|[]]]]; reflexivity.
Qed.

Lemma action_of_valid s : In (action_of s) VALID_ACTIONS.
Proof. destruct s; simpl; auto. Qed.

Lemma decide_action_valid state g :
  In (fst (decide_action state g)) VALID_ACTIONS.
Proof.
  unfold decide_action.
  destruct (decide_body state g) as [[s|x] g']; cbn [fst].
  - apply action_of_valid.
  - simpl. auto.
Qed.

(** C6: whatever the input value and the sampling outcomes, [decide_action]
    returns one of FOLD, CALL, RAISE: an exception raised in the body is
    turned into FOLD.  The coercion of [main] leaves that action unchanged
    and maps any other string to CALL. *)
Theorem decide_action_never_fails state parsed g :
  In (fst (decide_action state g)) VALID_ACTIONS /\
  (forall x, fst (decide_body state g) = Raise x ->
             fst (decide_action state g) = "FOLD") /\
  coerce (fst (decide_action state g)) = fst (decide_action state g) /\
  In (fst (main parsed g)) VALID_ACTIONS /\
  (forall s, ~ In s VALID_ACTIONS -> coerce s = "CALL").
Proof.
  split; [apply decide_action_valid|]. split; [|split; [|split]].
  - intros x. unfold decide_action.
    destruct (decide_body state g) as [[s|y] g']; cbn [fst];
      [discriminate|reflexivity].
  - apply coerce_valid, decide_action_valid.
  - unfold main.
    set (st := match parsed with Some v => v | None => PDict [] end).
    pose proof (decide_action_valid st g) as V.
    destruct (decide_action st g) as [a g']. cbn [fst] in *.
    now rewrite coerce_valid.
  - intros s N. unfold coerce.
    destruct (existsb _ _) eqn:E; [|reflexivity].
    exfalso. apply N. apply existsb_exists in E.
    destruct E as (a & I & Ea). apply String.eqb_eq in Ea. now subst.
Qed.

(** ** The random source *)

(** A draw returns the elements at two distinct positions of the
    population and advances the generator by one entry. *)
Lemma random_sample_sound population g :
  (2 <= List.length population)%nat ->
  exists a b,
    (a < List.length population)%nat /\ (b < List.length population)%nat /\
    a <> b /\
    random_sample population g =
      (Ok [nth a population ""; nth b population ""],
       {| tape := tape g; pos := S (pos g) |}).
Proof.
  intros L. unfold random_sample.
  destruct (Nat.ltb_spec (List.length population) 2) as [H|_]; [lia|].
  destruct (tape g (pos g)) as [i j].
  set (n := List.length population) in *.
  pose proof (Nat.mod_upper_bound i n ltac:(lia)) as Ha.
  pose proof (Nat.mod_upper_bound j (n - 1) ltac:(lia)) as Hb.
  exists (i mod n)%nat.
  destruct (Nat.ltb_spec (j mod (n - 1)) (i mod n)) as [Lt|Ge].
  - exists (j mod (n - 1))%nat. repeat split; lia.
  - exists (S (j mod (n - 1))). repeat split; lia.
Qed.

(** Every ordered pair of distinct positions is the outcome of some entry
    of the tape. *)
Lemma random_sample_complete population a b tp p :
  (a < List.length population)%nat -> (b < List.length population)%nat ->
  a <> b ->
  exists i j,
    forall g, tape g = tp -> pos g = p -> tp p = (i, j) ->
    fst (random_sample population g) =
      Ok [nth a population ""; nth b population ""].
Proof.
  intros Ha Hb Hab.
  exists a, (if (b <? a)%nat then b else Nat.pred b).
  intros g Ht Hp Hij. unfold random_sample.
  destruct (Nat.ltb_spec (List.length population) 2) as [H|_]; [lia|].
  rewrite Ht, Hp, Hij.
  set (n := List.length population) in *.
  rewrite (Nat.mod_small a n Ha).
  destruct (Nat.ltb_spec b a) as [Lt|Ge].
  - rewrite (Nat.mod_small b (n - 1)) by lia.
    destruct (Nat.ltb_spec b a); [reflexivity|lia].
  - rewrite (Nat.mod_small (Nat.pred b) (n - 1)) by lia.
    destruct (Nat.ltb_spec (Nat.pred b) a); [lia|].
    replace (S (Nat.pred b)) with b by lia. reflexivity.
Qed.

(** A request that fails validation does not draw; one that completes the
    simulation draws [sims] times. *)
Lemma simulate_pos n hole table deck : forall wins g w g',
  simulate n hole table deck wins g = (Ok w, g') ->
  pos g' = (pos g + n)%nat /\ tape g' = tape g.
Proof.
  induction n as [|k IH]; intros wins g w g'; cbn [simulate].
  - unfold ret. intros [= _ <-]. split; [lia|reflexivity].
  - unfold bind, lift, random_sample.
    destruct (_ <? 2)%nat; [discriminate|].
    destruct (tape g (pos g)) as [i j].
    destruct (compare_hands_internal _ _ _); [|discriminate].
    intros H. apply IH in H. cbn [pos tape] in H.
    destruct H as [H1 H2]. split; [lia|assumption].
Qed.

Lemma monte_carlo_draws hole table g e g' :
  monte_carlo hole table g = (Ok e, g') ->
  pos g' = (pos g + sims)%nat /\ tape g' = tape g.
Proof.
  unfold monte_carlo, bind, lift, ret.
  destruct (build_deck hole table) as [deck|]; [|discriminate].
  destruct (simulate sims hole table deck 0%Q g) as [[w|] g1] eqn:S;
    [|discriminate].
  intros [= _ <-]. eapply simulate_pos; eauto.
Qed.

(** ** Malformed requests *)

Example not_a_dict :
  decide_body (PList []) g0 = (Raise AttributeError, g0) /\
  decide_action (PList []) g0 = ("FOLD", g0).
Proof. split; reflexivity. Qed.

Example unknown_rank :
  parse_card (PStr "1H") = Raise KeyError /\
  fst (decide_action
         (PDict [("your_hole", hand "1H" "KD"); ("table_card", PStr "2S")])
         g0) = "FOLD".
Proof. split; reflexivity. Qed.

Example one_hole_card_run :
  hand_category (PList [PStr "AH"]) (PStr "KD") = Raise IndexError.
Proof. reflexivity. Qed.

Example hole_not_a_list :
  fst (decide_body
         (PDict [("your_hole", PInt 7); ("table_card", PStr "2S")]) g0)
  = Raise TypeError.
Proof. reflexivity. Qed.

(** ** The theorems at sample inputs *)

Lemma is_straight_3_spec_witness :
  is_rank 14 /\ is_rank 2 /\ is_rank 3 /\
  (is_straight_3 [14; 2; 3] = Ok (true, 3) <-> wheel_set [14; 2; 3]).
Proof.
  assert (R14 : is_rank 14) by (unfold is_rank; lia).
  assert (R2 : is_rank 2) by (unfold is_rank; lia).
  assert (R3 : is_rank 3) by (unfold is_rank; lia).
  split; [exact R14|]. split; [exact R2|]. split; [exact R3|].
  exact (proj1 (proj2 (is_straight_3_spec 14 2 3 R14 R2 R3))).
Defined.

Lemma hand_category_spec_witness :
  parse_card (PStr "AH") = Ok (14, PStr "H") /\
  parse_card (PStr "2H") = Ok (2, PStr "H") /\
  parse_card (PStr "3H") = Ok (3, PStr "H") /\
  exists k,
    hand_category (hand "AH" "2H") (PStr "3H") = Ok k /\
    first_match
      [(straight [14; 2; 3] /\ flush (PStr "H") (PStr "H") (PStr "H"), 5);
       (three_of_a_kind [14; 2; 3], 4);
       (straight [14; 2; 3], 3);
       (flush (PStr "H") (PStr "H") (PStr "H"), 2);
       (pair [14; 2; 3], 1)] 0 k /\
    0 <= k <= 5.
Proof.
  split; [reflexivity|]. split; [reflexivity|]. split; [reflexivity|].
  apply (hand_category_spec "AH" "2H" "3H"); reflexivity.
Defined.

Lemma compare_hands_internal_spec_witness :
  parse_card (PStr "AH") = Ok (14, PStr "H") /\
  parse_card (PStr "2D") = Ok (2, PStr "D") /\
  parse_card (PStr "4D") = Ok (4, PStr "D") /\
  parse_card (PStr "2C") = Ok (2, PStr "C") /\
  parse_card (PStr "3H") = Ok (3, PStr "H") /\
  exists ka kb sa sb r,
    hand_category (hand "AH" "2D") (PStr "3H") = Ok ka /\
    hand_category (hand "4D" "2C") (PStr "3H") = Ok kb /\
    tie_break_seq ka [14; 2; 3] sa /\
    tie_break_seq kb [4; 2; 3] sb /\
    List.length sa = 3%nat /\ List.length sb = 3%nat /\
    compare_hands_internal (hand "AH" "2D") (PStr "3H") (hand "4D" "2C") = Ok r /\
    (ka > kb -> r = 1.0%Q) /\
    (kb > ka -> r = 0.0%Q) /\
    (ka = kb -> lex_outcome sa sb r) /\
    ((r == 0.5)%Q -> ka = kb /\ sa = sb).
Proof.
  split; [reflexivity|]. split; [reflexivity|]. split; [reflexivity|].
  split; [reflexivity|]. split; [reflexivity|].
  apply (compare_hands_internal_spec "AH" "2D" "4D" "2C" "3H"
           14 2 4 2 3 (PStr "H") (PStr "D") (PStr "D") (PStr "C") (PStr "H"));
    reflexivity.
Defined.

Lemma compare_hands_internal_antisymmetric_witness :
  parse_card (PStr "AH") = Ok (14, PStr "H") /\
  parse_card (PStr "2D") = Ok (2, PStr "D") /\
  parse_card (PStr "4D") = Ok (4, PStr "D") /\
  parse_card (PStr "2C") = Ok (2, PStr "C") /\
  parse_card (PStr "3H") = Ok (3, PStr "H") /\
  exists x y,
    compare_hands_internal (hand "AH" "2D") (PStr "3H") (hand "4D" "2C") = Ok x /\
    compare_hands_internal (hand "4D" "2C") (PStr "3H") (hand "AH" "2D") = Ok y /\
    (x == 1 - y)%Q /\
    ((x == 0.5)%Q <-> (y == 0.5)%Q).
Proof.
  split; [reflexivity|]. split; [reflexivity|]. split; [reflexivity|].
  split; [reflexivity|]. split; [reflexivity|].
  apply (compare_hands_internal_antisymmetric "AH" "2D" "4D" "2C" "3H"
           14 2 4 2 3 (PStr "H") (PStr "D") (PStr "D") (PStr "C") (PStr "H"));
    reflexivity.
Defined.

Lemma empty_request_folds_witness :
  (truthy (request_hole empty_request) = false \/
   truthy (request_table empty_request) = false) /\
  decide_action (PDict empty_request) g0 = ("FOLD", g0).
Proof.
  assert (H : truthy (request_hole empty_request) = false \/
              truthy (request_table empty_request) = false)
    by (right; reflexivity).
  split; [assumption|].
  exact (proj2 (empty_request_folds empty_request g0 H)).
Defined.

Lemma total_rounds_unused_witness :
  (forall key, key <> "total_rounds" ->
     assoc key strong_request = assoc key strong_request_no_rounds) /\
  decide_action (PDict strong_request) g0 =
  decide_action (PDict strong_request_no_rounds) g0.
Proof.
  assert (H : forall key, key <> "total_rounds" ->
     assoc key strong_request = assoc key strong_request_no_rounds).
  { intros key N. unfold strong_request, strong_request_no_rounds.
    cbn [assoc].
    destruct (String.eqb key "your_hole"); [reflexivity|].
    destruct (String.eqb key "table_card"); [reflexivity|].
    destruct (String.eqb key "opponent_stats"); [reflexivity|].
    destruct (String.eqb_spec key "total_rounds");
      [contradiction|reflexivity]. }
  split; [assumption|].
  exact (total_rounds_unused _ _ g0 H).
Defined.

(** * Further properties *)

(** ** [RANK_VALUE] and [parse_card] *)

(** [RANK_VALUE] maps a rank symbol to its position in [RANKS] plus 2. *)
Lemma rank_lookup_index c :
  rank_lookup (PStr (String c "")) =
  match index_of c RANKS with
  | Some i => Ok (Z.of_nat i + 2)
  | None => Raise KeyError
  end.
Proof.
  unfold rank_lookup, RANK_VALUE, RANKS.
  cbn [enumerate map fst snd assoc index_of String.eqb].
  repeat (destruct (Ascii.eqb c _); [reflexivity|]).
  reflexivity.
Qed.

Lemma index_of_inj s : forall c c' i,
  index_of c s = Some i -> index_of c' s = Some i -> c = c'.
Proof.
  induction s as [|x t IH]; intros c c' i; simpl; [discriminate|].
  destruct (Ascii.eqb_spec c x), (Ascii.eqb_spec c' x); subst.
  - reflexivity.
  - intros [= <-]. destruct (index_of c' t); discriminate.
  - intros H [= <-]. destruct (index_of c t); discriminate.
  - destruct (index_of c t) eqn:E1, (index_of c' t) eqn:E2;
      simpl; try discriminate.
    intros [= <-] [= ->]. eauto.
Qed.

(** X1: the outcome of [parse_card] on a string.  It succeeds exactly on a
    string of at least two characters whose first one is a rank symbol,
    giving the position of the symbol in [RANKS] plus 2 and the second
    character; it raises [KeyError] on an unknown first character and
    [IndexError] on the empty string and on a lone rank symbol. *)
Theorem parse_card_string s :
  match parse_card (PStr s) with
  | Ok (v, suit) =>
      exists r c rest i,
        s = String r (String c rest) /\ index_of r RANKS = Some i /\
        v = Z.of_nat i + 2 /\ suit = PStr (String c "")
  | Raise IndexError =>
      s = "" \/ exists r, s = String r "" /\ index_of r RANKS <> None
  | Raise KeyError =>
      exists r rest, s = String r rest /\ index_of r RANKS = None
  | Raise _ => False
  end.
Proof.
  unfold parse_card, py_getitem.
  destruct s as [|r rest]; cbn [String.get rbind]; [now left|].
  rewrite rank_lookup_index.
  destruct (index_of r RANKS) as [i|] eqn:E; cbn [rbind].
  - destruct rest as [|c rest]; cbn [String.get rbind].
    + right. exists r. split; [reflexivity|congruence].
    + exists r, c, rest, i. auto.
  - eauto.
Qed.

(** X2: [RANK_VALUE] is a bijection between the rank symbols and the values
    2..14. *)
Theorem RANK_VALUE_bijection :
  (forall c c' v,
      rank_lookup (PStr (String c "")) = Ok v ->
      rank_lookup (PStr (String c' "")) = Ok v -> c = c') /\
  (forall v, is_rank v <-> exists c, rank_lookup (PStr (String c "")) = Ok v).
Proof.
  split.
  - intros c c' v. rewrite !rank_lookup_index.
    destruct (index_of c RANKS) as [i|] eqn:E1; [|discriminate].
    destruct (index_of c' RANKS) as [j|] eqn:E2; [|discriminate].
    intros [= <-] [= H]. assert (i = j) by lia. subst j.
    eapply index_of_inj; eauto.
  - intros v. split.
    + unfold is_rank. intros R.
      assert (D : v = 2 \/ v = 3 \/ v = 4 \/ v = 5 \/ v = 6 \/ v = 7 \/ v = 8 \/
                  v = 9 \/ v = 10 \/ v = 11 \/ v = 12 \/ v = 13 \/ v = 14)
        by lia.
      destruct D as [->|[->|[->|[->|[->|[->|[->|[->|[->|[->|[->|[->| ->]]]]]]]]]]]].
      * now exists "2"%char.
      * now exists "3"%char.
      * now exists "4"%char.
      * now exists "5"%char.
      * now exists "6"%char.
      * now exists "7"%char.
      * now exists "8"%char.
      * now exists "9"%char.
      * now exists "T"%char.
      * now exists "J"%char.
      * now exists "Q"%char.
      * now exists "K"%char.
      * now exists "A"%char.
    + intros (c & H). eapply rank_lookup_range; eauto.
Qed.

(** ** Order of the cards and the ranking of hands *)

Lemma min3_swap a b c : min3 a b c = min3 b a c.
Proof. unfold min3. lia. Qed.

Lemma max3_swap a b c : max3 a b c = max3 b a c.
Proof. unfold max3. lia. Qed.

Lemma min3_rot a b c : min3 a b c = min3 a c b.
Proof. unfold min3. lia. Qed.

Lemma max3_rot a b c : max3 a b c = max3 a c b.
Proof. unfold max3. lia. Qed.

Lemma sorted_3_swap a b c : sorted [a; b; c] = sorted [b; a; c].
Proof.
  rewrite !sorted_3, (min3_swap b a c), (max3_swap b a c).
  do 2 f_equal. lia.
Qed.

Lemma sorted_3_rot a b c : sorted [a; b; c] = sorted [a; c; b].
Proof.
  rewrite !sorted_3, (min3_rot a c b), (max3_rot a c b).
  do 2 f_equal. lia.
Qed.

Lemma is_straight_3_swap a b c : is_straight_3 [a; b; c] = is_straight_3 [b; a; c].
Proof. unfold is_straight_3. now rewrite sorted_3_swap. Qed.

Lemma is_straight_3_rot a b c : is_straight_3 [a; b; c] = is_straight_3 [a; c; b].
Proof. unfold is_straight_3. now rewrite sorted_3_rot. Qed.

Lemma in_values_Permutation (n : nat) l l' :
  (0 < n)%nat -> Permutation l l' ->
  in_values (Z.of_nat n) (count_values l) =
  in_values (Z.of_nat n) (count_values l').
Proof.
  intros Hn P.
  pose proof (in_values_count_values n l Hn) as H1.
  pose proof (in_values_count_values n l' Hn) as H2.
  assert (E : (exists v, occurrences l v = n) <-> (exists v, occurrences l' v = n)).
  { unfold occurrences.
    split; intros (v & Hv); exists v;
      [rewrite <- Hv; symmetry|rewrite <- Hv];
      apply (proj1 (Permutation_count_occ Z.eq_dec l l') P). }
  destruct (in_values _ (count_values l)), (in_values _ (count_values l'));
    intuition congruence.
Qed.

(** The category of three parseable tokens is determined by the multiset of
    values, the straight test and the flush test. *)
Lemma hand_category_tokens_perm c1 c2 t d1 d2 u v1 v2 v3 w1 w2 w3 s1 s2 s3 r1 r2 r3 :
  parse_card (PStr c1) = Ok (v1, s1) ->
  parse_card (PStr c2) = Ok (v2, s2) ->
  parse_card (PStr t) = Ok (v3, s3) ->
  parse_card (PStr d1) = Ok (w1, r1) ->
  parse_card (PStr d2) = Ok (w2, r2) ->
  parse_card (PStr u) = Ok (w3, r3) ->
  Permutation [v1; v2; v3] [w1; w2; w3] ->
  is_straight_3 [v1; v2; v3] = is_straight_3 [w1; w2; w3] ->
  (flush s1 s2 s3 <-> flush r1 r2 r3) ->
  hand_category (hand c1 c2) (PStr t) = hand_category (hand d1 d2) (PStr u).
Proof.
  intros H1 H2 H3 K1 K2 K3 P S F.
  destruct (hand_category_tokens _ _ _ _ _ _ _ _ _ H1 H2 H3)
    as (f & st & high & HF & HS & ->).
  destruct (hand_category_tokens _ _ _ _ _ _ _ _ _ K1 K2 K3)
    as (f' & st' & high' & HF' & HS' & ->).
  assert (st = st') by congruence. subst st'.
  assert (f = f') by (destruct f, f'; intuition congruence). subst f'.
  change 3 with (Z.of_nat 3). change 2 with (Z.of_nat 2).
  rewrite (in_values_Permutation 3 _ _ ltac:(lia) P),
    (in_values_Permutation 2 _ _ ltac:(lia) P).
  reflexivity.
Qed.


(** X3: the category of a hand does not depend on the order of its three
    cards: the two hole cards can be exchanged, and a hole card can be
    exchanged with the table card. *)
Theorem hand_category_card_order c1 c2 t v1 v2 v3 s1 s2 s3 :
  parse_card (PStr c1) = Ok (v1, s1) ->
  parse_card (PStr c2) = Ok (v2, s2) ->
  parse_card (PStr t) = Ok (v3, s3) ->
  hand_category (hand c1 c2) (PStr t) = hand_category (hand c2 c1) (PStr t) /\
  hand_category (hand c1 c2) (PStr t) = hand_category (hand c1 t) (PStr c2).
Proof.
  intros H1 H2 H3. split.
  - apply (hand_category_tokens_perm _ _ _ _ _ _ _ _ _ _ _ _ _ _ _ _ _ _
             H1 H2 H3 H2 H1 H3).
    + apply perm_swap.
    + apply is_straight_3_swap.
    + unfold flush. intuition congruence.
  - apply (hand_category_tokens_perm _ _ _ _ _ _ _ _ _ _ _ _ _ _ _ _ _ _
             H1 H2 H3 H1 H3 H2).
    + apply perm_skip, perm_swap.
    + apply is_straight_3_rot.
    + unfold flush. intuition congruence.
Qed.



Lemma hand_category_card_values A t k :
  hand_category A t = Ok k -> exists va, card_values A t = Ok va.
Proof.
  unfold hand_category, card_values.
  destruct (py_list_concat A [t]); cbn [rbind]; [|discriminate].
  destruct (mapM parse_card _); cbn [rbind]; [eauto|discriminate].
Qed.

(** A comparison that returns has categorised both hands. *)
Lemma compare_Ok_inv A t B r :
  compare_hands_internal A t B = Ok r ->
  exists ka kb va vb,
    hand_category A t = Ok ka /\ hand_category B t = Ok kb /\
    card_values A t = Ok va /\ card_values B t = Ok vb.
Proof.
  unfold compare_hands_internal.
  destruct (hand_category A t) as [ka|] eqn:HA; cbn [rbind]; [|discriminate].
  destruct (hand_category B t) as [kb|] eqn:HB; cbn [rbind]; [|discriminate].
  intros _.
  destruct (hand_category_card_values _ _ _ HA) as (va & VA).
  destruct (hand_category_card_values _ _ _ HB) as (vb & VB).
  exists ka, kb, va, vb. auto.
Qed.

Lemma compare_loop_refl l : compare_loop (combine l l) = 0.5%Q.
Proof.
  induction l as [|m l IH]; simpl; [reflexivity|].
  destruct (Z.gtb_spec m m); [lia|assumption].
Qed.

Lemma compare_loop_trans a : forall b c,
  compare_loop (combine a b) = 1.0%Q ->
  compare_loop (combine b c) = 1.0%Q ->
  compare_loop (combine a c) = 1.0%Q.
Proof.
  induction a as [|m a IH]; intros [|o b] [|p c]; simpl; try discriminate.
  destruct (Z.gtb_spec m o), (Z.gtb_spec o m), (Z.gtb_spec o p),
    (Z.gtb_spec p o), (Z.gtb_spec m p), (Z.gtb_spec p m);
    try lia; try discriminate; auto.
  apply IH.
Qed.

(** X5: a hand that can be categorised ties with itself. *)
Theorem compare_self_tie A t k :
  hand_category A t = Ok k ->
  compare_hands_internal A t A = Ok 0.5%Q.
Proof.
  intros HA. destruct (hand_category_card_values _ _ _ HA) as (va & VA).
  rewrite (compare_unfold _ _ _ _ _ _ _ HA HA VA VA).
  destruct (Z.gtb_spec k k); [lia|]. now rewrite compare_loop_refl.
Qed.

(** X6: whenever [compare_hands_internal] returns, the result is one of
    1.0, 0.0 and 0.5. *)
Theorem compare_outcomes A t B r :
  compare_hands_internal A t B = Ok r ->
  r = 1.0%Q \/ r = 0.0%Q \/ r = 0.5%Q.
Proof.
  intros H.
  destruct (compare_Ok_inv _ _ _ _ H) as (ka & kb & va & vb & HA & HB & VA & VB).
  rewrite (compare_unfold _ _ _ _ _ _ _ HA HB VA VB) in H.
  injection H as <-.
  destruct (ka >? kb); auto. destruct (kb >? ka); auto.
  apply compare_loop_values.
Qed.

(** X7: winning is transitive: if A beats B and B beats C on the same table
    card, then A beats C. *)
Theorem compare_transitive A B C t :
  compare_hands_internal A t B = Ok 1.0%Q ->
  compare_hands_internal B t C = Ok 1.0%Q ->
  compare_hands_internal A t C = Ok 1.0%Q.
Proof.
  intros H1 H2.
  destruct (compare_Ok_inv _ _ _ _ H1) as (ka & kb & va & vb & HA & HB & VA & VB).
  destruct (compare_Ok_inv _ _ _ _ H2) as (kb' & kc & vb' & vc & HB' & HC & VB' & VC).
  assert (kb' = kb) by congruence. assert (vb' = vb) by congruence.
  subst kb' vb'. clear HB' VB'.
  rewrite (compare_unfold _ _ _ _ _ _ _ HA HB VA VB) in H1.
  rewrite (compare_unfold _ _ _ _ _ _ _ HB HC VB VC) in H2.
  rewrite (compare_unfold _ _ _ _ _ _ _ HA HC VA VC).
  injection H1 as H1. injection H2 as H2. f_equal.
  destruct (Z.gtb_spec ka kb) as [G1|G1].
  - destruct (Z.gtb_spec kb kc) as [G2|G2].
    + destruct (Z.gtb_spec ka kc); [reflexivity|lia].
    + destruct (Z.gtb_spec kc kb); [discriminate|].
      destruct (Z.gtb_spec ka kc); [reflexivity|lia].
  - destruct (Z.gtb_spec kb ka); [discriminate|].
    assert (ka = kb) by lia. subst kb.
    destruct (Z.gtb_spec ka kc) as [G2|G2]; [reflexivity|].
    destruct (Z.gtb_spec kc ka); [discriminate|].
    assert (kc = ka) by lia. subst kc.
    eapply compare_loop_trans; eauto.
Qed.

Lemma compare_self_tie_witness :
  hand_category (hand "AH" "2D") (PStr "3H") = Ok 3 /\
  compare_hands_internal (hand "AH" "2D") (PStr "3H") (hand "AH" "2D") = Ok 0.5%Q.
Proof.
  assert (H : hand_category (hand "AH" "2D") (PStr "3H") = Ok 3) by reflexivity.
  split; [exact H|].
  exact (compare_self_tie _ _ _ H).
Defined.

Lemma compare_outcomes_witness :
  compare_hands_internal (hand "AH" "2D") (PStr "3H") (hand "4D" "2C") = Ok 0.0%Q /\
  (0.0%Q = 1.0%Q \/ 0.0%Q = 0.0%Q \/ 0.0%Q = 0.5%Q).
Proof.
  assert (H : compare_hands_internal (hand "AH" "2D") (PStr "3H") (hand "4D" "2C")
              = Ok 0.0%Q) by reflexivity.
  split; [exact H|].
  exact (compare_outcomes _ _ _ _ H).
Defined.

Lemma compare_transitive_witness :
  compare_hands_internal (hand "5D" "4C") (PStr "3H") (hand "4D" "2C") = Ok 1.0%Q /\
  compare_hands_internal (hand "4D" "2C") (PStr "3H") (hand "AH" "2D") = Ok 1.0%Q /\
  compare_hands_internal (hand "5D" "4C") (PStr "3H") (hand "AH" "2D") = Ok 1.0%Q.
Proof.
  assert (H1 : compare_hands_internal (hand "5D" "4C") (PStr "3H") (hand "4D" "2C")
               = Ok 1.0%Q) by reflexivity.
  assert (H2 : compare_hands_internal (hand "4D" "2C") (PStr "3H") (hand "AH" "2D")
               = Ok 1.0%Q) by reflexivity.
  split; [exact H1|]. split; [exact H2|].
  exact (compare_transitive _ _ _ _ H1 H2).
Defined.

Lemma hand_category_card_order_witness :
  parse_card (PStr "AH") = Ok (14, PStr "H") /\
  parse_card (PStr "2D") = Ok (2, PStr "D") /\
  parse_card (PStr "3H") = Ok (3, PStr "H") /\
  hand_category (hand "AH" "2D") (PStr "3H") = hand_category (hand "2D" "AH") (PStr "3H") /\
  hand_category (hand "AH" "2D") (PStr "3H") = hand_category (hand "AH" "3H") (PStr "2D").
Proof.
  split; [reflexivity|]. split; [reflexivity|]. split; [reflexivity|].
  apply (hand_category_card_order "AH" "2D" "3H" 14 2 3
           (PStr "H") (PStr "D") (PStr "H")); reflexivity.
Defined.


(** ** The deck of unknown cards *)

Lemma py_eq_str c x : py_eq (PStr c) x = true <-> x = PStr c.
Proof.
  destruct x; simpl; try (split; [discriminate|discriminate]).
  rewrite String.eqb_eq. split; congruence.
Qed.

Lemma existsb_py_eq c l : existsb (py_eq (PStr c)) l = true <-> In (PStr c) l.
Proof.
  rewrite existsb_exists. split.
  - intros (x & I & E). apply py_eq_str in E. now subst.
  - intros I. exists (PStr c). split; [assumption|]. now apply py_eq_str.
Qed.

Lemma unknown_card_spec l table c :
  unknown_card l table c = true <-> ~ In (PStr c) l /\ table <> PStr c.
Proof.
  unfold unknown_card, py_ne.
  rewrite andb_true_iff, !negb_true_iff.
  pose proof (existsb_py_eq c l) as E. pose proof (py_eq_str c table) as T.
  destruct (existsb _ l), (py_eq _ table); intuition congruence.
Qed.

Lemma suit_loop_list r l table ss : forall deck,
  suit_loop r ss (PList l) table deck =
  Ok (deck ++ filter (unknown_card l table)
                (map (fun s => String r (String s "")) (list_ascii_of_string ss)))%list.
Proof.
  induction ss as [|s ss IH]; intros deck; cbn [suit_loop list_ascii_of_string map filter].
  - now rewrite app_nil_r.
  - cbn [py_contains rbind append]. rewrite IH. unfold unknown_card at 2.
    destruct (negb _ && _); [|reflexivity].
    now rewrite <- app_assoc.
Qed.

Lemma rank_loop_list l table rs : forall deck,
  rank_loop rs (PList l) table deck =
  Ok (deck ++ filter (unknown_card l table)
                (flat_map
                   (fun r => map (fun s => String r (String s ""))
                               (list_ascii_of_string "HDSC"))
                   (list_ascii_of_string rs)))%list.
Proof.
  induction rs as [|r rs IH]; intros deck;
    cbn [rank_loop list_ascii_of_string flat_map].
  - now rewrite app_nil_r.
  - rewrite suit_loop_list. cbn [rbind]. rewrite IH, filter_app.
    now rewrite <- app_assoc.
Qed.

Lemma build_deck_list l table :
  build_deck (PList l) table = Ok (filter (unknown_card l table) all_cards).
Proof. unfold build_deck. now rewrite rank_loop_list. Qed.

Lemma NoDup_all_cards : NoDup all_cards.
Proof.
  assert (E : nodup string_dec all_cards = all_cards) by (vm_compute; reflexivity).
  rewrite <- E. apply NoDup_nodup.
Qed.

Lemma filter_split_length {A : Type} (f : A -> bool) (l : list A) :
  (List.length (filter f l) + List.length (filter (fun x => negb (f x)) l)
   = List.length l)%nat.
Proof.
  induction l as [|x t IH]; simpl; [reflexivity|].
  destruct (f x); simpl; lia.
Qed.

Lemma NoDup_map_PStr l : NoDup l -> NoDup (map PStr l).
Proof.
  induction 1 as [|c l Hc N IH]; simpl; constructor; [|assumption].
  intros I. apply in_map_iff in I. destruct I as (c' & [= ->] & I'). auto.
Qed.

(** The cards left out of the deck are elements of the hole list or the
    table card. *)
Lemma known_cards_length l table :
  (List.length (filter (fun c => negb (unknown_card l table c)) all_cards)
   <= S (List.length l))%nat.
Proof.
  set (removed := filter _ all_cards).
  assert (N : NoDup (map PStr removed))
    by (apply NoDup_map_PStr, NoDup_filter, NoDup_all_cards).
  assert (I : incl (map PStr removed) (table :: l)).
  { intros x Hx. apply in_map_iff in Hx. destruct Hx as (c & <- & Hc).
    apply filter_In in Hc. destruct Hc as [_ Hc].
    apply negb_true_iff in Hc.
    unfold unknown_card, py_ne in Hc.
    apply andb_false_iff in Hc. destruct Hc as [Hc|Hc].
    - apply negb_false_iff, existsb_py_eq in Hc. now right.
    - apply negb_false_iff, py_eq_str in Hc. now left. }
  pose proof (NoDup_incl_length N I) as L.
  rewrite length_map in L. exact L.
Qed.

Lemma deck_In l table c :
  In c (filter (unknown_card l table) all_cards) <->
  In c all_cards /\ ~ In (PStr c) l /\ table <> PStr c.
Proof. now rewrite filter_In, unknown_card_spec. Qed.

Lemma deck_length l table :
  (52 - List.length l - 1
   <= List.length (filter (unknown_card l table) all_cards) <= 52)%nat.
Proof.
  pose proof (filter_split_length (unknown_card l table) all_cards) as S.
  pose proof (known_cards_length l table) as K.
  change (List.length all_cards) with 52%nat in S. lia.
Qed.

(** X8: for a hole list the deck is the 52 cards, in rank-then-suit order,
    without the elements of the hole list and without the table card.  It has
    no duplicates and at least [52 - len(hole) - 1] cards, so a hole of two
    cards always leaves at least 49 cards to sample from. *)
Theorem build_deck_spec l table :
  exists deck,
    build_deck (PList l) table = Ok deck /\
    deck = filter (unknown_card l table) all_cards /\
    NoDup deck /\
    (forall c, In c deck <->
               In c all_cards /\ ~ In (PStr c) l /\ table <> PStr c) /\
    (52 - List.length l - 1 <= List.length deck <= 52)%nat.
Proof.
  exists (filter (unknown_card l table) all_cards).
  split; [apply build_deck_list|]. split; [reflexivity|].
  split; [apply NoDup_filter, NoDup_all_cards|]. split.
  - apply deck_In.
  - apply deck_length.
Qed.

Lemma all_cards_parse c :
  In c all_cards -> exists v s, parse_card (PStr c) = Ok (v, s).
Proof.
  assert (F : forallb
                (fun c => match parse_card (PStr c) with
                          | Ok _ => true
                          | Raise _ => false
                          end) all_cards = true)
    by (vm_compute; reflexivity).
  rewrite forallb_forall in F. intros I. specialize (F c I).
  destruct (parse_card (PStr c)) as [[v s]|]; [eauto|discriminate].
Qed.

(** X9: with two distinct hole cards and a third, distinct table card, all
    taken from the 52 cards, the deck has exactly 49 cards. *)
Theorem build_deck_49 c1 c2 t :
  In c1 all_cards -> In c2 all_cards -> In t all_cards ->
  c1 <> c2 -> c1 <> t -> c2 <> t ->
  exists deck,
    build_deck (hand c1 c2) (PStr t) = Ok deck /\ List.length deck = 49%nat.
Proof.
  intros I1 I2 I3 N12 N13 N23. unfold hand.
  exists (filter (unknown_card [PStr c1; PStr c2] (PStr t)) all_cards).
  split; [apply build_deck_list|].
  pose proof (filter_split_length
                (unknown_card [PStr c1; PStr c2] (PStr t)) all_cards) as S.
  pose proof (known_cards_length [PStr c1; PStr c2] (PStr t)) as K.
  change (List.length all_cards) with 52%nat in S. cbn [List.length] in K.
  set (removed := filter (fun c => negb (unknown_card _ _ c)) all_cards) in *.
  assert (L : (3 <= List.length removed)%nat).
  { change 3%nat with (List.length [c1; c2; t]).
    apply NoDup_incl_length.
    - repeat constructor; simpl; intuition congruence.
    - intros c Hc. apply filter_In.
      assert (U : unknown_card [PStr c1; PStr c2] (PStr t) c <> true).
      { rewrite unknown_card_spec. simpl.
        destruct Hc as [<-|[<-|[<-|[]]]]; tauto. }
      split.
      + destruct Hc as [<-|[<-|[<-|[]]]]; assumption.
      + destruct (unknown_card _ _ c); [congruence|reflexivity]. }
  lia.
Qed.

(** X10: the opponent's cards of a trial are two different cards of the 52,
    none of them an element of the hole list or the table card. *)
Theorem sampled_opponent_cards l table deck g opp g' :
  build_deck (PList l) table = Ok deck ->
  random_sample deck g = (Ok opp, g') ->
  exists c1 c2,
    opp = [c1; c2] /\ c1 <> c2 /\
    In c1 all_cards /\ In c2 all_cards /\
    ~ In (PStr c1) l /\ ~ In (PStr c2) l /\
    table <> PStr c1 /\ table <> PStr c2.
Proof.
  intros B R.
  pose proof (NoDup_filter (unknown_card l table) NoDup_all_cards) as N.
  pose proof (deck_In l table) as I.
  pose proof (build_deck_list l table) as B'.
  set (deck' := filter (unknown_card l table) all_cards) in *.
  clearbody deck'.
  assert (deck' = deck) by congruence. subst deck'. clear B'.
  assert (L : (2 <= List.length deck)%nat).
  { destruct (Nat.ltb_spec (List.length deck) 2) as [Lt|Ge]; [|exact Ge].
    exfalso. apply Nat.ltb_lt in Lt. unfold random_sample in R.
    rewrite Lt in R. discriminate R. }
  destruct (random_sample_sound deck g L) as (a & b & Ha & Hb & Hab & E).
  rewrite E in R. injection R as <- _.
  exists (nth a deck ""), (nth b deck "").
  pose proof (nth_In deck "" Ha) as Ia. pose proof (nth_In deck "" Hb) as Ib.
  apply I in Ia. apply I in Ib.
  split; [reflexivity|]. split; [|tauto].
  intros Eq. apply Hab. eapply (proj1 (NoDup_nth deck "")); eauto.
Qed.

(** ** The Monte Carlo step *)

Lemma compare_tokens_Ok a1 a2 b1 b2 t va1 va2 vb1 vb2 vt sa1 sa2 sb1 sb2 st :
  parse_card (PStr a1) = Ok (va1, sa1) ->
  parse_card (PStr a2) = Ok (va2, sa2) ->
  parse_card (PStr b1) = Ok (vb1, sb1) ->
  parse_card (PStr b2) = Ok (vb2, sb2) ->
  parse_card (PStr t) = Ok (vt, st) ->
  exists r, compare_hands_internal (hand a1 a2) (PStr t) (hand b1 b2) = Ok r.
Proof.
  intros HA1 HA2 HB1 HB2 HT.
  destruct (hand_category_tokens _ _ _ _ _ _ _ _ _ HA1 HA2 HT)
    as (fa & sta & ha & _ & _ & HA).
  destruct (hand_category_tokens _ _ _ _ _ _ _ _ _ HB1 HB2 HT)
    as (fb & stb & hb & _ & _ & HB).
  rewrite (compare_unfold _ _ _ _ _ _ _ HA HB
             (card_values_tokens _ _ _ _ _ _ _ _ _ HA1 HA2 HT)
             (card_values_tokens _ _ _ _ _ _ _ _ _ HB1 HB2 HT)).
  eauto.
Qed.

Lemma simulate_tokens_Ok c1 c2 t v1 v2 v3 s1 s2 s3 deck :
  parse_card (PStr c1) = Ok (v1, s1) ->
  parse_card (PStr c2) = Ok (v2, s2) ->
  parse_card (PStr t) = Ok (v3, s3) ->
  (2 <= List.length deck)%nat ->
  (forall c, In c deck -> In c all_cards) ->
  forall n wins g,
  exists w g', simulate n (hand c1 c2) (PStr t) deck wins g = (Ok w, g').
Proof.
  intros H1 H2 H3 L I.
  induction n as [|n IH]; intros wins g; cbn [simulate].
  - unfold ret. eauto.
  - unfold bind, lift.
    destruct (random_sample_sound deck g L) as (a & b & Ha & Hb & _ & ->).
    destruct (all_cards_parse _ (I _ (nth_In deck "" Ha))) as (va & sa & Pa).
    destruct (all_cards_parse _ (I _ (nth_In deck "" Hb))) as (vb & sb & Pb).
    cbn [map].
    destruct (compare_tokens_Ok _ _ _ _ _ _ _ _ _ _ _ _ _ _ _ H1 H2 Pa Pb H3)
      as (r & R).
    fold (hand (nth a deck "") (nth b deck "")). rewrite R. apply IH.
Qed.

(** The trial loop on the deck of two parseable hole tokens. *)
Lemma tokens_simulate_returns c1 c2 t v1 v2 v3 s1 s2 s3 :
  parse_card (PStr c1) = Ok (v1, s1) ->
  parse_card (PStr c2) = Ok (v2, s2) ->
  parse_card (PStr t) = Ok (v3, s3) ->
  forall g,
  exists w g',
    simulate sims (hand c1 c2) (PStr t)
      (filter (unknown_card [PStr c1; PStr c2] (PStr t)) all_cards) 0%Q g
    = (Ok w, g').
Proof.
  intros H1 H2 H3 g.
  pose proof (deck_length [PStr c1; PStr c2] (PStr t)) as L.
  cbn [List.length] in L.
  apply (simulate_tokens_Ok _ _ _ _ _ _ _ _ _ _ H1 H2 H3).
  - lia.
  - intros c Hc. apply deck_In in Hc. exact (proj1 Hc).
Qed.

(** X11: on two parseable hole tokens and a parseable table token the
    Monte Carlo step never raises: the deck is large enough to sample from
    and every trial compares two hands that parse. *)
Theorem monte_carlo_tokens_Ok c1 c2 t v1 v2 v3 s1 s2 s3 g :
  parse_card (PStr c1) = Ok (v1, s1) ->
  parse_card (PStr c2) = Ok (v2, s2) ->
  parse_card (PStr t) = Ok (v3, s3) ->
  exists e g', monte_carlo (hand c1 c2) (PStr t) g = (Ok e, g').
Proof.
  intros H1 H2 H3. unfold monte_carlo, bind, lift, ret.
  unfold hand at 1. rewrite build_deck_list.
  destruct (tokens_simulate_returns _ _ _ _ _ _ _ _ _ H1 H2 H3 g)
    as (w & g' & S).
  rewrite S. eauto.
Qed.

Lemma compare_half_points A t B r :
  compare_hands_internal A t B = Ok r ->
  exists k : Z, 0 <= k <= 2 /\ (r == inject_Z k * (1 # 2))%Q.
Proof.
  intros H.
  destruct (compare_Ok_inv _ _ _ _ H) as (ka & kb & va & vb & HA & HB & VA & VB).
  rewrite (compare_unfold _ _ _ _ _ _ _ HA HB VA VB) in H.
  injection H as <-.
  destruct (ka >? kb); [exists 2; split; [lia|reflexivity]|].
  destruct (kb >? ka); [exists 0; split; [lia|reflexivity]|].
  destruct (compare_loop_values
              (combine
                 (if ((ka =? 5) || (ka =? 3))
                     && set_eqb (sorted_reverse va) [14; 3; 2]
                  then [3; 2; 1] else sorted_reverse va)
                 (if ((ka =? 5) || (ka =? 3))
                     && set_eqb (sorted_reverse vb) [14; 3; 2]
                  then [3; 2; 1] else sorted_reverse vb)))
    as [-> | [-> | ->]].
  - exists 2. split; [lia|reflexivity].
  - exists 0. split; [lia|reflexivity].
  - exists 1. split; [lia|reflexivity].
Qed.

(** The wins accumulated by [n] trials: the initial value plus a number of
    half points between 0 and [2 * n]. *)
Lemma simulate_wins n hole table deck : forall wins g w g',
  simulate n hole table deck wins g = (Ok w, g') ->
  exists k : Z,
    0 <= k <= 2 * Z.of_nat n /\ (w == wins + inject_Z k * (1 # 2))%Q.
Proof.
  induction n as [|n IH]; intros wins g w g'; cbn [simulate].
  - unfold ret. intros [= <- _]. exists 0. split; [lia|].
    change (inject_Z 0) with 0%Q. ring.
  - unfold bind, lift.
    destruct (random_sample deck g) as [[opp|] g1]; [|discriminate].
    destruct (compare_hands_internal _ _ _) as [r|] eqn:R; [|discriminate].
    intros S. apply IH in S. destruct S as (k & Hk & E).
    destruct (compare_half_points _ _ _ _ R) as (j & Hj & Er).
    exists (k + j). split; [lia|].
    rewrite E, Er, inject_Z_plus. ring.
Qed.


(** Every run of the trial loop, completed or not, leaves the tape
    unchanged and advances the position by at most [n]. *)
Lemma simulate_draws n hole table deck : forall wins g r g',
  simulate n hole table deck wins g = (r, g') ->
  tape g' = tape g /\ (pos g <= pos g' <= pos g + n)%nat.
Proof.
  induction n as [|n IH]; intros wins g r g'; cbn [simulate].
  - unfold ret. intros [= _ <-]. split; [reflexivity|lia].
  - unfold bind, lift, random_sample.
    destruct (_ <? 2)%nat.
    + intros [= _ <-]. split; [reflexivity|lia].
    + destruct (tape g (pos g)) as [i j].
      destruct (compare_hands_internal _ _ _).
      * intros S. apply IH in S. cbn [tape pos] in S.
        destruct S as [S1 S2]. split; [assumption|lia].
      * intros [= _ <-]. cbn [tape pos]. split; [reflexivity|lia].
Qed.

(** X13: [decide_action] makes at most 800 draws and none when the request
    fails validation; it makes exactly 800 whenever the body returns at a
    later statement. *)
Theorem decide_action_draws state g :
  tape (snd (decide_action state g)) = tape g /\
  (pos g <= pos (snd (decide_action state g)) <= pos g + 800)%nat /\
  (forall s, fst (decide_body state g) = Ok s ->
             (s = RetEmpty /\ snd (decide_action state g) = g) \/
             (s <> RetEmpty /\
              pos (snd (decide_action state g)) = (pos g + 800)%nat)).
Proof.
  assert (A : snd (decide_action state g) = snd (decide_body state g)).
  { unfold decide_action. now destruct (decide_body state g) as [[s|x] g']. }
  rewrite A. clear A.
  destruct state;
    try (rewrite decide_body_not_dict by discriminate; cbn [fst snd];
         split; [reflexivity|split; [lia|discriminate]]).
  rewrite decide_body_dict.
  destruct (_ || _).
  { cbn [fst snd]. split; [reflexivity|]. split; [lia|].
    intros s [= <-]. now left. }
  destruct (monte_carlo _ _ g) as [[e|x] g'] eqn:M.
  - apply monte_carlo_draws in M. destruct M as [P T]. cbn [fst snd].
    change sims with 800%nat in P.
    split; [exact T|]. split; [lia|].
    intros s S. right. split; [|exact P].
    unfold strategic_logic in S. cbv zeta in S.
    destruct (flt (b64 e) (b64 0.35)); [injection S as <-; discriminate|].
    destruct (fold_frequency _) as [ff|]; cbn [rbind] in S; [|discriminate S].
    injection S as <-. unfold final_decision. cbv zeta.
    destruct (_ && _); [discriminate|]. destruct (flt _ _); discriminate.
  - cbn [fst snd]. unfold monte_carlo, bind, lift, ret in M.
    destruct (build_deck _ _) as [deck|].
    + destruct (simulate sims _ _ deck 0%Q g) as [[w|y] g1] eqn:S;
        [discriminate M|].
      injection M as _ <-. apply simulate_draws in S.
      change sims with 800%nat in S. destruct S as [S1 S2].
      split; [exact S1|]. split; [exact S2|discriminate].
    + injection M as _ <-. split; [reflexivity|]. split; [lia|discriminate].
Qed.

(** ** The decision rule *)

(** *** Rounding to binary64 *)

Lemma pow2_pos z : (0 < pow2 z)%Q.
Proof.
  unfold pow2. destruct (z <? 0) eqn:E.
  - reflexivity.
  - apply Z.ltb_ge in E. change 0%Q with (inject_Z 0). rewrite <- Zlt_Qlt.
    now apply Z.pow_pos_nonneg.
Qed.

Lemma pow2_ge_4 z : 2 <= z -> (4 <= pow2 z)%Q.
Proof.
  intros H. unfold pow2. destruct (z <? 0) eqn:E.
  - apply Z.ltb_lt in E. lia.
  - change 4%Q with (inject_Z (2 ^ 2)). rewrite <- Zle_Qle.
    apply Z.pow_le_mono_r; lia.
Qed.

Lemma pow2_small z : z <= -51 -> (pow2 z <= 1 # 2251799813685248)%Q.
Proof.
  intros H. change 2251799813685248%positive with (2 ^ 51)%positive.
  unfold pow2. destruct (z <? 0) eqn:E.
  - unfold Qle. cbn [Qnum Qden]. rewrite !Z.mul_1_l.
    rewrite !Pos2Z.inj_pow. rewrite Z2Pos.id by lia.
    apply Z.pow_le_mono_r; lia.
  - apply Z.ltb_ge in E. lia.
Qed.

(** A positive number below 4 has binary exponent at most 1. *)
Lemma ilog2_small a : (0 < a)%Q -> (a < 4)%Q -> ilog2 a <= 1.
Proof.
  intros H0 H4. unfold ilog2.
  destruct (Qle_bool (pow2 _) a) eqn:E.
  - apply Qle_bool_iff in E.
    destruct (Z_lt_le_dec (Z.log2 (Qnum a) - Z.log2 (Z.pos (Qden a))) 2)
      as [L|L]; [lia|].
    apply pow2_ge_4 in L. lra.
  - destruct a as [n d]. cbn [Qnum Qden] in *.
    unfold Qlt in H0, H4. cbn [Qnum Qden] in H0, H4.
    assert (Hn : 0 < n) by lia.
    assert (Z.log2 n <= Z.log2 (Z.pos d * 2 ^ 2)).
    { apply Z.log2_le_mono. lia. }
    rewrite Z.log2_mul_pow2 in H by lia. lia.
Qed.

Lemma round_half_even_error x :
  (Qabs (inject_Z (round_half_even x) - x) <= 1 # 2)%Q.
Proof.
  unfold round_half_even.
  pose proof (Qfloor_le x) as L. pose proof (Qlt_floor x) as U.
  rewrite inject_Z_plus in U. change (inject_Z 1) with 1%Q in U.
  set (f := Qfloor x) in *. clearbody f.
  apply Qabs_Qle_condition.
  destruct (Qcompare (x - inject_Z f) (1 # 2)) eqn:C.
  - apply Qeq_alt in C. destruct (Z.even f);
      rewrite ?inject_Z_plus; change (inject_Z 1) with 1%Q; lra.
  - apply Qlt_alt in C. lra.
  - apply Qgt_alt in C. rewrite inject_Z_plus. change (inject_Z 1) with 1%Q. lra.
Qed.

(** Rounding a number below 4 in magnitude gives a finite float at most
    [2 ^ -52] away. *)
Lemma b64_error q :
  (Qabs q < 4)%Q -> exists r, b64 q = FNum r /\ (Qabs (r - q) <= eta)%Q.
Proof.
  intros H. unfold b64.
  pose proof (Qred_correct q) as Rq.
  set (q' := Qred q) in *. clearbody q'.
  destruct (Qeq_bool q' 0) eqn:Z0.
  - apply Qeq_bool_iff in Z0. exists 0%Q. split; [reflexivity|].
    apply Qabs_Qle_condition. unfold eta. split; lra.
  - assert (Hne : ~ (q' == 0)%Q).
    { intros C. apply Qeq_bool_iff in C. congruence. }
    assert (Ha : (0 < Qabs q')%Q).
    { pose proof (Qabs_nonneg q') as N.
      destruct (Qlt_le_dec 0 (Qabs q')) as [P|P]; [exact P|].
      exfalso. apply Hne. apply Qabs_Qle_condition in P. lra. }
    assert (Ha4 : (Qabs q' < 4)%Q) by (rewrite Rq; exact H).
    set (a := Qabs q') in *.
    pose proof (ilog2_small a Ha Ha4) as Le.
    set (ex := Z.max (ilog2 a - 52) (-1074)).
    assert (Hex : ex <= -51) by (unfold ex; lia).
    pose proof (pow2_small ex Hex) as Hu.
    pose proof (pow2_pos ex) as Hp.
    set (u := pow2 ex) in *. clearbody u. clear Hex. clearbody ex.
    pose proof (round_half_even_error (a / u)) as E.
    set (m := inject_Z (round_half_even (a / u))) in *. clearbody m.
    pose proof (Qred_correct (m * u)) as Rr.
    set (r := Qred (m * u)) in *. clearbody r.
    assert (Er : (Qabs (r - a) <= eta)%Q).
    { rewrite Rr. apply Qabs_Qle_condition in E. apply Qabs_Qle_condition.
      assert (Eq : (m * u - a == (m - a / u) * u)%Q) by (field; lra).
      rewrite Eq. unfold eta.
      destruct E as [E1 E2]. split; nra. }
    assert (Hov : Qle_bool (pow2 1024) r = false).
    { destruct (Qle_bool (pow2 1024) r) eqn:O; [|reflexivity].
      apply Qle_bool_iff in O. exfalso.
      assert (B : (5 <= pow2 1024)%Q)
        by (apply Qle_bool_iff; vm_compute; reflexivity).
      apply Qabs_Qle_condition in Er. unfold eta in Er. lra. }
    rewrite Hov.
    unfold a in Er.
    exists (if Qneg q' then (- r)%Q else r). split; [reflexivity|].
    rewrite <- Rq.
    unfold Qneg. destruct (Qnum q' <? 0) eqn:S.
    + apply Z.ltb_lt in S.
      assert (q' < 0)%Q by (unfold Qlt; cbn; lia).
      assert (En : (Qabs q' == - q')%Q) by (apply Qabs_neg; lra).
      apply Qabs_Qle_condition in Er. apply Qabs_Qle_condition. lra.
    + apply Z.ltb_ge in S.
      assert (0 <= q')%Q by (unfold Qle; cbn; lia).
      assert (En : (Qabs q' == q')%Q) by (apply Qabs_pos; lra).
      apply Qabs_Qle_condition in Er. apply Qabs_Qle_condition. lra.
Qed.

(** Rounding depends on the value only. *)
Lemma b64_proper q q' : (q == q')%Q -> b64 q = b64 q'.
Proof. intros H. unfold b64. now rewrite (Qred_complete _ _ H). Qed.

Lemma lit_1 : b64 1.0 = FNum 1.
Proof. reflexivity. Qed.

Lemma lit_2 : b64 2.0 = FNum 2.
Proof. reflexivity. Qed.

Lemma lit_3 : b64 3.0 = FNum 3.
Proof. reflexivity. Qed.

Lemma near_FNum q : near (FNum q) q 0.
Proof. exists q. split; [reflexivity|lra]. Qed.

Lemma near_weaken x v d v' d' :
  near x v d -> (v == v')%Q -> (d <= d')%Q -> near x v' d'.
Proof. intros (r & E & B) Hv Hd. exists r. split; [exact E|lra]. Qed.

Lemma b64_near q : (-4 < q < 4)%Q -> near (b64 q) q eta.
Proof.
  intros H.
  destruct (b64_error q) as (r & E & B).
  { apply Qabs_Qlt_condition. exact H. }
  apply Qabs_Qle_condition in B. exists r. split; [exact E|lra].
Qed.

(** The error of a sum: the errors of the operands and one rounding. *)
Lemma fadd_near x y a b da db :
  near x a da -> near y b db ->
  (-4 < a + b - (da + db))%Q -> (a + b + (da + db) < 4)%Q ->
  near (fadd x y) (a + b) (da + db + eta).
Proof.
  intros (r & -> & Br) (s & -> & Bs) L U. cbn [fadd].
  destruct (b64_near (r + s)) as (z & E & Bz); [lra|].
  exists z. split; [exact E|lra].
Qed.

(** The error of a product of operands bounded by [A] and [B]. *)
Lemma fmul_near x y a b da db A B :
  near x a da -> near y b db ->
  (- A <= a <= A)%Q -> (- B <= b <= B)%Q -> (0 <= da)%Q -> (0 <= db)%Q ->
  ((A + da) * (B + db) < 4)%Q ->
  near (fmul x y) (a * b) (da * (B + db) + A * db + eta).
Proof.
  intros (r & -> & Br) (s & -> & Bs) Ha Hb Hda Hdb H4. cbn [fmul].
  assert (P1 : (- (da * (B + db)) <= (r - a) * s <= da * (B + db))%Q)
    by (split; nra).
  assert (P2 : (- (A * db) <= a * (s - b) <= A * db)%Q) by (split; nra).
  assert (P3 : (- ((A + da) * (B + db)) <= r * s <= (A + da) * (B + db))%Q)
    by (split; nra).
  assert (Eq : (r * s == a * b + (r - a) * s + a * (s - b))%Q) by ring.
  destruct (b64_near (r * s)) as (z & E & Bz); [lra|].
  exists z. split; [exact E|lra].
Qed.

(** *** The opponent analysis *)

Lemma feq_refl x : feq x x.
Proof. destruct x; simpl; [reflexivity|reflexivity|exact I]. Qed.

(** [max(0.05, min(0.95, x))] is a finite number between the two literals,
    whatever [x] is: finite, infinite or NaN. *)
Lemma max_min_range x :
  exists v,
    py_max (b64 0.05) (py_min (b64 0.95) x) = FNum v /\
    flt (FNum v) (b64 0.05) = false /\
    flt (b64 0.95) (FNum v) = false /\
    (0.05 - eta <= v <= 0.95 + eta)%Q /\
    (forall r, x = FNum r -> (r <= v \/ 0.95 - eta <= v)%Q).
Proof.
  destruct (b64_near 0.05) as (lo & Elo & Blo); [lra|].
  destruct (b64_near 0.95) as (hi & Ehi & Bhi); [lra|].
  rewrite Elo, Ehi. unfold eta in *. unfold py_max, py_min.
  destruct x as [r|[|]|]; cbn [flt negb].
  - by_comparisons; rewrite ?Qltb_lt, ?Qltb_ge in * |-;
      eexists; (split; [reflexivity|]); cbn [flt];
      (split; [apply Qltb_ge; lra|]); (split; [apply Qltb_ge; lra|]);
      (split; [lra|]); intros r0 [= <-]; lra.
  - by_comparisons; rewrite ?Qltb_lt, ?Qltb_ge in * |-;
      eexists; (split; [reflexivity|]); cbn [flt];
      (split; [apply Qltb_ge; lra|]); (split; [apply Qltb_ge; lra|]);
      (split; [lra|]); intros r0 R; discriminate R.
  - by_comparisons; rewrite ?Qltb_lt, ?Qltb_ge in * |-; try lra;
      eexists; (split; [reflexivity|]); cbn [flt];
      (split; [apply Qltb_ge; lra|]); (split; [apply Qltb_ge; lra|]);
      (split; [lra|]); intros r0 R; discriminate R.
  - by_comparisons; rewrite ?Qltb_lt, ?Qltb_ge in * |-; try lra;
      eexists; (split; [reflexivity|]); cbn [flt];
      (split; [apply Qltb_ge; lra|]); (split; [apply Qltb_ge; lra|]);
      (split; [lra|]); intros r0 R; discriminate R.
Qed.

(** On a finite number the two builtins compute the clamp. *)
Lemma clamp_max_min r :
  feq (py_max (b64 0.05) (py_min (b64 0.95) (FNum r)))
      (clamp (FNum r) (b64 0.05) (b64 0.95)).
Proof.
  destruct (b64_near 0.05) as (lo & Elo & Blo); [lra|].
  destruct (b64_near 0.95) as (hi & Ehi & Bhi); [lra|].
  rewrite Elo, Ehi. unfold eta in *. unfold py_max, py_min, clamp.
  cbn [flt]. by_comparisons; rewrite ?Qltb_lt, ?Qltb_ge in * |-; cbn [feq]; lra.
Qed.

Lemma ratio_range a n :
  0 <= a <= n -> 0 < n -> (0 <= inject_Z a / inject_Z n <= 1)%Q.
Proof.
  intros H Hn.
  assert (P : (0 < inject_Z n)%Q)
    by (change 0%Q with (inject_Z 0); rewrite <- Zlt_Qlt; lia).
  assert (A : (0 <= inject_Z a)%Q)
    by (change 0%Q with (inject_Z 0); rewrite <- Zle_Qle; lia).
  assert (B : (inject_Z a <= inject_Z n)%Q) by (rewrite <- Zle_Qle; lia).
  split.
  - apply Qle_shift_div_l; [exact P|lra].
  - apply Qle_shift_div_r; [exact P|lra].
Qed.

(** The opponent analysis on well-formed counts: the prior with at most 5
    observed actions, otherwise the clamped ratio, which is finite. *)
Lemma fold_frequency_eval sd nf nc nr :
  count_field sd "fold" nf -> count_field sd "call" nc ->
  count_field sd "raise" nr ->
  (nf + nc + nr <= 5 -> fold_frequency (PDict sd) = Ok (b64 0.30)) /\
  (5 < nf + nc + nr ->
   exists r,
     b64 (inject_Z nf / inject_Z (nf + nc + nr)) = FNum r /\
     (inject_Z nf / inject_Z (nf + nc + nr) - eta <= r
        <= inject_Z nf / inject_Z (nf + nc + nr) + eta)%Q /\
     fold_frequency (PDict sd) =
       Ok (py_max (b64 0.05) (py_min (b64 0.95) (FNum r)))).
Proof.
  intros Hf Hc Hr. unfold fold_frequency, py_get.
  rewrite (count_field_get _ _ _ Hf), (count_field_get _ _ _ Hc),
    (count_field_get _ _ _ Hr).
  cbn [rbind py_add number_of as_int option_map py_gt].
  destruct Hf as [Pf _], Hc as [Pc _], Hr as [Pr _].
  split; intros G.
  - destruct (Z.ltb_spec 5 (nf + nc + nr)); [lia|reflexivity].
  - destruct (Z.ltb_spec 5 (nf + nc + nr)); [|lia]. cbn [rbind].
    unfold py_truediv. cbn [number_of as_int option_map].
    destruct (Z.eqb_spec (nf + nc + nr) 0); [lia|].
    pose proof (ratio_range nf (nf + nc + nr) ltac:(lia) ltac:(lia)) as R.
    destruct (b64_near (inject_Z nf / inject_Z (nf + nc + nr)))
      as (r & E & B); [lra|].
    exists r. rewrite E. split; [reflexivity|]. split; [exact B|reflexivity].
Qed.

Lemma fold_frequency_counts sd nf nc nr :
  count_field sd "fold" nf -> count_field sd "call" nc ->
  count_field sd "raise" nr ->
  exists ff,
    fold_frequency (PDict sd) = Ok ff /\ feq ff (spec_fold_freq nf nc nr).
Proof.
  intros Hf Hc Hr.
  destruct (fold_frequency_eval _ _ _ _ Hf Hc Hr) as [D M].
  unfold spec_fold_freq.
  destruct (Z.gtb_spec (nf + nc + nr) 5) as [G|G].
  - destruct (M G) as (r & E & _ & F). rewrite E.
    eexists. split; [exact F|apply clamp_max_min].
  - eexists. split; [exact (D G)|apply feq_refl].
Qed.

(** The estimate of the opponent's fold frequency is always a finite number
    between the literals 0.05 and 0.95, whatever the statistics hold. *)
Lemma fold_frequency_range stats ff :
  fold_frequency stats = Ok ff ->
  exists v,
    ff = FNum v /\
    flt ff (b64 0.05) = false /\ flt (b64 0.95) ff = false /\
    (0.05 - eta <= v <= 0.95 + eta)%Q.
Proof.
  unfold fold_frequency.
  remember (b64 0.05) as lo eqn:Elo.
  remember (b64 0.95) as hi eqn:Ehi.
  remember (b64 0.30) as prior eqn:Ep.
  destruct (py_get stats "fold" _); cbn [rbind]; [|intros X; discriminate X].
  destruct (py_get stats "call" _); cbn [rbind]; [|intros X; discriminate X].
  destruct (py_add _ _); cbn [rbind]; [|intros X; discriminate X].
  destruct (py_get stats "raise" _); cbn [rbind]; [|intros X; discriminate X].
  destruct (py_add _ _); cbn [rbind]; [|intros X; discriminate X].
  destruct (py_gt _ _) as [[|]|]; cbn [rbind]; [| |intros X; discriminate X].
  - destruct (py_truediv _ _) as [ratio|]; cbn [rbind];
      [|intros X; discriminate X].
    intros X. injection X as <-. subst lo hi.
    destruct (max_min_range ratio) as (v & E & L & U & B & _).
    exists v. rewrite E. auto.
  - intros X. injection X as <-. subst lo hi prior.
    destruct (b64_near 0.05) as (lo & Elo & Blo); [lra|].
    destruct (b64_near 0.95) as (hi & Ehi & Bhi); [lra|].
    destruct (b64_near 0.30) as (c & Ec & Bc); [lra|].
    rewrite Elo, Ehi, Ec. unfold eta in *. exists c. cbn [flt].
    split; [reflexivity|].
    split; [apply Qltb_ge; lra|]. split; [apply Qltb_ge; lra|lra].
Qed.

(** *** The equity *)

Lemma inject_Z_le k m : k <= m -> (inject_Z k <= inject_Z m)%Q.
Proof. intros H. now rewrite <- Zle_Qle. Qed.

Lemma reachable_range e : reachable e -> (0 <= e <= 1)%Q.
Proof.
  intros (k & Hk & E).
  pose proof (inject_Z_le 0 k ltac:(lia)) as L.
  pose proof (inject_Z_le k 1600 ltac:(lia)) as U.
  change (inject_Z 0) with 0%Q in L. change (inject_Z 1600) with 1600%Q in U.
  lra.
Qed.

(** The Monte Carlo step returns a reachable equity. *)
Lemma monte_carlo_reachable hole table g e g' :
  monte_carlo hole table g = (Ok e, g') -> reachable e.
Proof.
  unfold monte_carlo, bind, lift, ret.
  destruct (build_deck hole table) as [deck|]; [|discriminate].
  destruct (simulate sims hole table deck 0%Q g) as [[w|] g1] eqn:S;
    [|discriminate].
  intros [= <- _].
  apply simulate_wins in S. destruct S as (k & Hk & E).
  change (Z.of_nat sims) with 800 in *.
  exists k. split; [lia|].
  rewrite E. change (inject_Z 800) with 800%Q. field.
Qed.

(** On a reachable equity the trash filter of the program, which compares
    two floats, decides as the comparison of the exact quotient with 0.35. *)
Lemma trash_filter_exact e :
  reachable e -> flt (b64 e) (b64 0.35) = Qltb e 0.35.
Proof.
  intros R. pose proof (reachable_range e R) as Re.
  destruct R as (k & Hk & E).
  destruct (b64_near 0.35) as (c & Ec & Bc); [lra|].
  destruct (Z.eq_dec k 560) as [->|N].
  - assert (H : (e == 0.35)%Q) by (rewrite E; reflexivity).
    rewrite (b64_proper e 0.35 H), Ec. cbn [flt].
    transitivity false; [apply Qltb_ge; lra|symmetry; apply Qltb_ge; lra].
  - destruct (b64_near e) as (r & Er & Br); [lra|].
    rewrite Er, Ec. cbn [flt]. unfold eta in *.
    destruct (Z_lt_le_dec k 560) as [L|L].
    + pose proof (inject_Z_le k 559 ltac:(lia)) as B.
      change (inject_Z 559) with 559%Q in B.
      transitivity true; [apply Qltb_lt; lra|symmetry; apply Qltb_lt; lra].
    + pose proof (inject_Z_le 561 k ltac:(lia)) as B.
      change (inject_Z 561) with 561%Q in B.
      transitivity false; [apply Qltb_ge; lra|symmetry; apply Qltb_ge; lra].
Qed.

Lemma strategic_logic_trash stats e :
  reachable e -> (e < 0.35)%Q -> strategic_logic stats e = Ok RetTrash.
Proof.
  intros R Lt. unfold strategic_logic. cbv zeta.
  now rewrite (trash_filter_exact e R), (proj2 (Qltb_lt e 0.35%Q) Lt).
Qed.

(** Past the trash filter the float equity is within one rounding of the
    exact quotient. *)
Lemma strategic_logic_past_filter stats e :
  reachable e -> (0.35 <= e)%Q ->
  exists r,
    b64 e = FNum r /\ (e - eta <= r <= e + eta)%Q /\
    strategic_logic stats e =
      (fold_freq <- fold_frequency stats ;;
       Ok (final_decision fold_freq (FNum r)))%result.
Proof.
  intros R Ge. pose proof (reachable_range e R) as Re.
  destruct (b64_near e) as (r & Er & Br); [lra|].
  exists r. split; [exact Er|]. split; [exact Br|].
  unfold strategic_logic. cbv zeta.
  rewrite (trash_filter_exact e R), (proj2 (Qltb_ge e 0.35%Q) Ge).
  now rewrite Er.
Qed.

(** *** The expected values *)

Lemma ev_call_near ff e :
  (0 <= ff <= 1)%Q -> (0 <= e <= 101 # 100)%Q ->
  near (ev_call (FNum ff) (FNum e)) (exact_call ff e) (16 * eta).
Proof.
  intros Hf He. unfold ev_call. cbv zeta. rewrite lit_2. unfold fsub.
  cbn [fneg].
  pose proof (fmul_near _ _ _ _ _ _ (101 # 100) 2 (near_FNum e) (near_FNum 2))
    as X1.
  pose proof (fadd_near _ _ _ _ _ _ (near_FNum 1) (near_FNum (- e))) as T.
  pose proof (fmul_near _ _ _ _ _ _ 1 2
                (T ltac:(lra) ltac:(lra)) (near_FNum (- (2))%Q)) as X2.
  pose proof (fadd_near _ _ _ _ _ _
                (X1 ltac:(lra) ltac:(lra) ltac:(lra) ltac:(lra)
                    ltac:(reflexivity))
                (X2 ltac:(lra) ltac:(lra) ltac:(unfold eta; lra) ltac:(lra)
                    ltac:(reflexivity))) as S.
  pose proof (fmul_near _ _ _ _ _ _ 1 2 (near_FNum ff) (near_FNum 2)) as A.
  pose proof (fadd_near _ _ _ _ _ _ (near_FNum 1) (near_FNum (- ff))) as U.
  pose proof (fmul_near _ _ _ _ _ _ 1 (21 # 10)
                (U ltac:(lra) ltac:(lra))
                (S ltac:(unfold eta; lra) ltac:(unfold eta; lra))) as P.
  pose proof (fadd_near _ _ _ _ _ _
                (A ltac:(lra) ltac:(lra) ltac:(lra) ltac:(lra)
                   ltac:(reflexivity))
                (P ltac:(lra) ltac:(lra) ltac:(unfold eta; lra)
                   ltac:(unfold eta; lra) ltac:(reflexivity))) as V.
  eapply near_weaken; [apply V| |].
  - unfold eta. nra.
  - unfold eta. nra.
  - unfold exact_call. ring.
  - unfold eta. lra.
Qed.

Lemma ev_raise_near ff e :
  (0 <= ff <= 1)%Q -> (0 <= e <= 101 # 100)%Q ->
  near (ev_raise (FNum ff) (FNum e)) (exact_raise ff e) (16 * eta).
Proof.
  intros Hf He. unfold ev_raise. cbv zeta. rewrite lit_3. unfold fsub.
  cbn [fneg].
  pose proof (fmul_near _ _ _ _ _ _ (101 # 100) 3 (near_FNum e) (near_FNum 3))
    as X1.
  pose proof (fadd_near _ _ _ _ _ _ (near_FNum 1) (near_FNum (- e))) as T.
  pose proof (fmul_near _ _ _ _ _ _ 1 3
                (T ltac:(lra) ltac:(lra)) (near_FNum (- (3))%Q)) as X2.
  pose proof (fadd_near _ _ _ _ _ _
                (X1 ltac:(lra) ltac:(lra) ltac:(lra) ltac:(lra)
                    ltac:(reflexivity))
                (X2 ltac:(lra) ltac:(lra) ltac:(unfold eta; lra) ltac:(lra)
                    ltac:(reflexivity))) as S.
  pose proof (fmul_near _ _ _ _ _ _ 1 3 (near_FNum ff) (near_FNum 3)) as A.
  pose proof (fadd_near _ _ _ _ _ _ (near_FNum 1) (near_FNum (- ff))) as U.
  pose proof (fmul_near _ _ _ _ _ _ 1 (31 # 10)
                (U ltac:(lra) ltac:(lra))
                (S ltac:(unfold eta; lra) ltac:(unfold eta; lra))) as P.
  pose proof (fadd_near _ _ _ _ _ _
                (A ltac:(lra) ltac:(lra) ltac:(lra) ltac:(lra)
                   ltac:(reflexivity))
                (P ltac:(lra) ltac:(lra) ltac:(unfold eta; lra)
                   ltac:(unfold eta; lra) ltac:(reflexivity))) as V.
  eapply near_weaken; [apply V| |].
  - unfold eta. nra.
  - unfold eta. nra.
  - unfold exact_raise. ring.
  - unfold eta. lra.
Qed.

(** The final decision on a fold frequency and an equity past the trash
    filter: the two tests against [ev_fold] always succeed, and the margin
    test of RAISE follows the exact difference of the expected values up to
    the rounding error. *)
Lemma final_decision_cases ff e :
  (4 # 100 <= ff <= 96 # 100)%Q -> (34 # 100 <= e <= 101 # 100)%Q ->
  flt ev_fold (ev_raise (FNum ff) (FNum e)) = true /\
  flt (fadd ev_fold (b64 0.10)) (ev_call (FNum ff) (FNum e)) = true /\
  (0.10 + tol <= exact_gap ff e ->
   final_decision (FNum ff) (FNum e) = RetRaise)%Q /\
  (exact_gap ff e <= 0.10 - tol ->
   final_decision (FNum ff) (FNum e) = RetCall)%Q /\
  (final_decision (FNum ff) (FNum e) = RetRaise \/
   final_decision (FNum ff) (FNum e) = RetCall).
Proof.
  intros Hf He.
  destruct (ev_call_near ff e ltac:(lra) ltac:(lra)) as (vc & Ec & Bc).
  destruct (ev_raise_near ff e ltac:(lra) ltac:(lra)) as (vr & Er & Br).
  destruct (b64_near 0.10) as (c & E10 & B10); [lra|].
  assert (G : (exact_raise ff e - exact_call ff e == exact_gap ff e)%Q)
    by (unfold exact_raise, exact_call, exact_gap; ring).
  assert (LC : (- (54 # 100) <= exact_call ff e <= 3)%Q)
    by (unfold exact_call; split; nra).
  assert (LR : (- (81 # 100) <= exact_raise ff e <= 31 # 10)%Q)
    by (unfold exact_raise; split; nra).
  unfold final_decision. cbv zeta.
  rewrite Ec, Er, E10. unfold ev_fold. rewrite lit_1. cbn [fneg fadd].
  unfold eta, tol in *.
  destruct (b64_near (vc + c)) as (w & Ew & Bw); [lra|].
  destruct (b64_near (- (1) + c)) as (u & Eu & Bu); [lra|].
  rewrite Ew, Eu. cbn [flt]. unfold eta in *.
  assert (R2 : Qltb (- (1)) vr = true) by (apply Qltb_lt; lra).
  assert (C2 : Qltb u vc = true) by (apply Qltb_lt; lra).
  rewrite R2, C2, andb_true_r.
  split; [reflexivity|]. split; [reflexivity|].
  destruct (Qltb w vr) eqn:E1; [apply Qltb_lt in E1|apply Qltb_ge in E1].
  - split; [reflexivity|]. split; [intros H; lra|left; reflexivity].
  - split; [intros H; lra|]. split; [reflexivity|right; reflexivity].
Qed.

Lemma ev_call_proper f f' x : feq f f' -> ev_call f x = ev_call f' x.
Proof.
  destruct f as [a|s|], f' as [a'|s'|]; cbn [feq]; try contradiction.
  - intros H. unfold ev_call, fsub. cbv zeta. rewrite lit_2. cbn [fneg fmul fadd].
    rewrite (b64_proper (a * 2) (a' * 2)), (b64_proper (1 + - a) (1 + - a'));
      [reflexivity|now rewrite H|now rewrite H].
  - now intros ->.
  - reflexivity.
Qed.

Lemma ev_raise_proper f f' x : feq f f' -> ev_raise f x = ev_raise f' x.
Proof.
  destruct f as [a|s|], f' as [a'|s'|]; cbn [feq]; try contradiction.
  - intros H. unfold ev_raise, fsub. cbv zeta. rewrite lit_3. cbn [fneg fmul fadd].
    rewrite (b64_proper (a * 3) (a' * 3)), (b64_proper (1 + - a) (1 + - a'));
      [reflexivity|now rewrite H|now rewrite H].
  - now intros ->.
  - reflexivity.
Qed.

Lemma final_decision_proper f f' x :
  feq f f' -> final_decision f x = final_decision f' x.
Proof.
  intros H. unfold final_decision. cbv zeta.
  now rewrite (ev_call_proper f f' x H), (ev_raise_proper f f' x H).
Qed.


(** Past the trash filter the body returns at RAISE or at CALL as soon as the
    opponent analysis returns. *)
Lemma strategic_logic_returns stats e ff :
  reachable e -> (0.35 <= e)%Q -> fold_frequency stats = Ok ff ->
  strategic_logic stats e = Ok RetRaise \/
  strategic_logic stats e = Ok RetCall.
Proof.
  intros R Ge F. pose proof (reachable_range e R) as Re.
  destruct (strategic_logic_past_filter stats e R Ge) as (r & _ & Br & ->).
  rewrite F. cbn [rbind].
  destruct (fold_frequency_range _ _ F) as (v & -> & _ & _ & Bv).
  unfold eta in *.
  destruct (final_decision_cases v r ltac:(lra) ltac:(lra))
    as (_ & _ & _ & _ & [-> | ->]); auto.
Qed.

(** No input and no outcome of the sampling leads to the last [return] of
    the [try] block. *)
Lemma decide_body_never_fallback state g :
  fst (decide_body state g) <> Ok RetFallback.
Proof.
  destruct state;
    try (rewrite decide_body_not_dict; [discriminate|discriminate]).
  rewrite decide_body_dict.
  destruct (_ || _); [discriminate|].
  destruct (monte_carlo _ _ g) as [[e|x] g'] eqn:M; [|discriminate].
  cbn [fst]. apply monte_carlo_reachable in M.
  destruct (Qlt_le_dec e 0.35%Q) as [Lt|Ge].
  - rewrite (strategic_logic_trash _ e M Lt). discriminate.
  - destruct (fold_frequency (request_stats d)) as [ff|x] eqn:F.
    + destruct (strategic_logic_returns _ e ff M Ge F) as [-> | ->];
        discriminate.
    + destruct (strategic_logic_past_filter (request_stats d) e M Ge)
        as (r & _ & _ & ->).
      rewrite F. discriminate.
Qed.

(** [decide_body] on counted statistics, past the trash filter. *)
Lemma decide_body_counted d g e g' nf nc nr :
  valid_request d -> computed_equity d g e g' -> (0.35 <= e)%Q ->
  counted_stats d nf nc nr ->
  decide_body (PDict d) g =
    (Ok (final_decision (spec_fold_freq nf nc nr) (b64 e)), g').
Proof.
  intros V C E (sd & Hs & Hf & Hc & Hr).
  destruct (fold_frequency_counts _ _ _ _ Hf Hc Hr) as (ff & F & Q).
  pose proof (monte_carlo_reachable _ _ _ _ _ C) as R.
  rewrite (decide_body_valid _ _ _ _ V C), Hs.
  destruct (strategic_logic_past_filter (PDict sd) e R E) as (r & Er & _ & ->).
  rewrite F, Er. cbn [rbind].
  now rewrite (final_decision_proper _ _ (FNum r) Q).
Qed.


(** C5: when the computed equity is strictly below 0.35, [decide_action]
    returns FOLD at the trash filter, whatever the opponent statistics are. *)
Theorem trash_filter_folds d g e g' :
  valid_request d ->
  computed_equity d g e g' ->
  (e < 0.35)%Q ->
  decide_body (PDict d) g = (Ok RetTrash, g') /\
  decide_action (PDict d) g = ("FOLD", g') /\
  (forall stats, strategic_logic stats e = Ok RetTrash).
Proof.
  intros V C E.
  pose proof (monte_carlo_reachable _ _ _ _ _ C) as R.
  assert (S : forall stats, strategic_logic stats e = Ok RetTrash)
    by (intros stats; exact (strategic_logic_trash stats e R E)).
  assert (B : decide_body (PDict d) g = (Ok RetTrash, g'))
    by now rewrite (decide_body_valid _ _ _ _ V C), S.
  split; [exact B|]. split; [|exact S].
  unfold decide_action. now rewrite B.
Qed.

(** C9, amended: no input and no outcome of the sampling reaches the final
    FOLD after the EV comparisons.  For a request that passes validation,
    whose computed equity is at least 0.35 and whose statistics are a mapping
    of non-negative integer counts, the fold frequency is a float between the
    literals 0.05 and 0.95, [ev_call] is within [tol] of
    [2 * fold_freq + (1 - fold_freq) * (4 * e - 2)] and at least
    [-0.47 - tol], so it exceeds [ev_fold + 0.10], and the action is RAISE or
    CALL. *)
Theorem fallback_unreachable d g e g' n_fold n_call n_raise :
  valid_request d ->
  computed_equity d g e g' ->
  (0.35 <= e)%Q ->
  counted_stats d n_fold n_call n_raise ->
  (exists ff v,
      fold_frequency (request_stats d) = Ok (FNum ff) /\
      flt (FNum ff) (b64 0.05) = false /\
      flt (b64 0.95) (FNum ff) = false /\
      ev_call (FNum ff) (b64 e) = FNum v /\
      (Qabs (v - exact_call ff e) <= tol)%Q /\
      (-0.47 - tol <= v)%Q /\
      flt (fadd ev_fold (b64 0.10)) (FNum v) = true) /\
  (decide_body (PDict d) g = (Ok RetRaise, g') \/
   decide_body (PDict d) g = (Ok RetCall, g')) /\
  (decide_action (PDict d) g = ("RAISE", g') \/
   decide_action (PDict d) g = ("CALL", g')) /\
  (forall state g0, fst (decide_body state g0) <> Ok RetFallback).
Proof.
  intros V C E (sd & Hs & Hf & Hc & Hr).
  pose proof (monte_carlo_reachable _ _ _ _ _ C) as R.
  pose proof (reachable_range e R) as Re.
  destruct (fold_frequency_counts _ _ _ _ Hf Hc Hr) as (f & F & _).
  rewrite <- Hs in F.
  destruct (fold_frequency_range _ _ F) as (ff & -> & Lo & Hi & Bf).
  destruct (strategic_logic_past_filter (request_stats d) e R E)
    as (r & Er & Br & S).
  rewrite F in S. cbn [rbind] in S.
  unfold eta in *.
  destruct (final_decision_cases ff r ltac:(lra) ltac:(lra))
    as (_ & C2 & _ & _ & D).
  destruct (ev_call_near ff r ltac:(lra) ltac:(lra)) as (v & Ev & Bv).
  rewrite Ev in C2.
  assert (X : (exact_call ff r - exact_call ff e == 4 * (1 - ff) * (r - e))%Q)
    by (unfold exact_call; ring).
  assert (L : (-0.47 <= exact_call ff e + 3 * (1 # 4503599627370496))%Q)
    by (unfold exact_call; nra).
  unfold eta in *.
  split; [|split; [|split]].
  - exists ff, v. rewrite Er.
    split; [exact F|]. split; [exact Lo|]. split; [exact Hi|].
    split; [exact Ev|].
    split; [apply Qabs_Qle_condition; unfold tol; split; nra|].
    split; [unfold tol; nra|exact C2].
  - rewrite (decide_body_valid _ _ _ _ V C), S.
    destruct D as [-> | ->]; auto.
  - unfold decide_action. rewrite (decide_body_valid _ _ _ _ V C), S.
    destruct D as [-> | ->]; auto.
  - exact decide_body_never_fallback.
Qed.

(** X14: past the trash filter the choice between RAISE and CALL is decided
    by one quantity, [fold_freq + (1 - fold_freq) * (2 * equity - 1)]: the
    computed difference [ev_raise - ev_call] is within [tol] of it, the body
    raises when it is at least [0.10 + tol] and calls when it is at most
    [0.10 - tol]; the test [ev_raise > ev_fold] never decides. *)
Theorem raise_threshold ff e :
  (4 # 100 <= ff <= 96 # 100)%Q -> (34 # 100 <= e <= 1)%Q ->
  (exists vc vr,
      ev_call (FNum ff) (FNum e) = FNum vc /\
      ev_raise (FNum ff) (FNum e) = FNum vr /\
      (Qabs (vr - vc - exact_gap ff e) <= tol)%Q) /\
  flt ev_fold (ev_raise (FNum ff) (FNum e)) = true /\
  ((0.10 + tol <= exact_gap ff e)%Q ->
   final_decision (FNum ff) (FNum e) = RetRaise) /\
  ((exact_gap ff e <= 0.10 - tol)%Q ->
   final_decision (FNum ff) (FNum e) = RetCall) /\
  (final_decision (FNum ff) (FNum e) = RetRaise ->
   (0.10 - tol < exact_gap ff e)%Q) /\
  (final_decision (FNum ff) (FNum e) = RetCall ->
   (exact_gap ff e < 0.10 + tol)%Q).
Proof.
  intros Hf He.
  destruct (final_decision_cases ff e Hf ltac:(lra)) as (R2 & _ & Hr & Hc & _).
  destruct (ev_call_near ff e ltac:(lra) ltac:(lra)) as (vc & Ec & Bc).
  destruct (ev_raise_near ff e ltac:(lra) ltac:(lra)) as (vr & Er & Br).
  assert (G : (exact_raise ff e - exact_call ff e == exact_gap ff e)%Q)
    by (unfold exact_raise, exact_call, exact_gap; ring).
  split; [|split; [exact R2|split; [exact Hr|split; [exact Hc|split]]]].
  - exists vc, vr. split; [exact Ec|]. split; [exact Er|].
    apply Qabs_Qle_condition. unfold eta, tol in *. split; lra.
  - intros D. destruct (Qlt_le_dec (0.10 - tol) (exact_gap ff e)) as [L|L];
      [exact L|].
    rewrite (Hc L) in D. discriminate D.
  - intros D. destruct (Qlt_le_dec (exact_gap ff e) (0.10 + tol)) as [L|L];
      [exact L|].
    rewrite (Hr L) in D. discriminate D.
Qed.

Lemma strategic_logic_inv stats e s :
  reachable e ->
  strategic_logic stats e = Ok s ->
  (s = RetTrash /\ (e < 0.35)%Q) \/
  (exists ff r,
      (0.35 <= e)%Q /\ fold_frequency stats = Ok (FNum ff) /\
      (0.05 - eta <= ff <= 0.95 + eta)%Q /\
      b64 e = FNum r /\ (e - eta <= r <= e + eta)%Q /\
      s = final_decision (FNum ff) (FNum r)).
Proof.
  intros R S.
  destruct (Qlt_le_dec e 0.35%Q) as [Lt|Ge].
  - rewrite (strategic_logic_trash stats e R Lt) in S.
    injection S as <-. left. auto.
  - destruct (strategic_logic_past_filter stats e R Ge) as (r & Er & Br & X).
    rewrite X in S.
    destruct (fold_frequency stats) as [f|] eqn:F; cbn [rbind] in S;
      [|discriminate S].
    destruct (fold_frequency_range _ _ F) as (ff & -> & _ & _ & Bf).
    injection S as <-. right. exists ff, r. auto 10.
Qed.

(** X15: the decision is monotone in the equity: with the same statistics, a
    higher reachable equity keeps a RAISE a RAISE and turns a CALL into a
    CALL or a RAISE. *)
Theorem strategic_logic_monotone stats e e' s :
  reachable e -> reachable e' ->
  strategic_logic stats e = Ok s -> (e <= e')%Q ->
  (s = RetRaise -> strategic_logic stats e' = Ok RetRaise) /\
  (s = RetCall ->
   strategic_logic stats e' = Ok RetCall \/
   strategic_logic stats e' = Ok RetRaise).
Proof.
  intros R R' S L.
  destruct (strategic_logic_inv _ _ _ R S)
    as [[-> _]|(ff & r & He & F & Bf & Er & Br & ->)];
    [split; intros X; discriminate X|].
  assert (He' : (0.35 <= e')%Q) by lra.
  pose proof (reachable_range e R) as Re.
  pose proof (reachable_range e' R') as Re'.
  destruct (strategic_logic_past_filter stats e' R' He')
    as (r' & Er' & Br' & ->).
  rewrite F. cbn [rbind]. unfold eta in *.
  destruct (final_decision_cases ff r ltac:(lra) ltac:(lra))
    as (_ & _ & _ & Hc & _).
  destruct (final_decision_cases ff r' ltac:(lra) ltac:(lra))
    as (_ & _ & Hr' & _ & D').
  split.
  - intros D. f_equal.
    destruct R as (k & Hk & Ek), R' as (k' & Hk' & Ek').
    destruct (Z_lt_le_dec k k') as [Lt|Le].
    + pose proof (inject_Z_le (k + 1) k' ltac:(lia)) as B.
      rewrite inject_Z_plus in B. change (inject_Z 1) with 1%Q in B.
      apply Hr'.
      destruct (Qlt_le_dec (0.10 - tol) (exact_gap ff r)) as [G|G];
        [|rewrite (Hc G) in D; discriminate D].
      unfold exact_gap, tol in *. nra.
    + pose proof (inject_Z_le k' k Le) as B.
      assert (Q : (e' == e)%Q) by lra.
      rewrite (b64_proper e' e Q), Er in Er'. injection Er' as <-. exact D.
  - intros _. destruct D' as [-> | ->]; auto.
Qed.

Lemma spec_fold_freq_default nf nc nr :
  nf + nc + nr <= 5 -> spec_fold_freq nf nc nr = b64 0.30.
Proof.
  intros H. unfold spec_fold_freq.
  destruct (Z.gtb_spec (nf + nc + nr) 5); [lia|reflexivity].
Qed.

(** X16: with at most 5 observed actions (the 0.30 prior) a request past the
    trash filter is answered RAISE exactly when the equity exceeds 5/14, and
    CALL on the narrow band from 0.35 to 5/14. *)
Theorem default_prior_rule d g e g' n_fold n_call n_raise :
  valid_request d ->
  computed_equity d g e g' ->
  (0.35 <= e)%Q ->
  counted_stats d n_fold n_call n_raise ->
  n_fold + n_call + n_raise <= 5 ->
  (decide_action (PDict d) g = ("RAISE", g') <-> (5 # 14 < e)%Q) /\
  (decide_action (PDict d) g = ("CALL", g') <-> (e <= 5 # 14)%Q).
Proof.
  intros V C E S Few. unfold decide_action.
  rewrite (decide_body_counted _ _ _ _ _ _ _ V C E S),
    (spec_fold_freq_default _ _ _ Few).
  pose proof (monte_carlo_reachable _ _ _ _ _ C) as R.
  pose proof (reachable_range e R) as Re.
  destruct (b64_near e) as (r & Er & Br); [lra|].
  destruct (b64_near 0.30) as (c & Ec & Bc); [lra|].
  rewrite Er, Ec. unfold eta in *.
  destruct (final_decision_cases c r ltac:(lra) ltac:(lra))
    as (_ & _ & Hr & Hc & _).
  destruct R as (k & Hk & Ek).
  destruct (Z_lt_le_dec k 572) as [Lt|Le].
  - pose proof (inject_Z_le k 571 ltac:(lia)) as B.
    change (inject_Z 571) with 571%Q in B.
    assert (K : (e <= 5 # 14)%Q) by lra.
    rewrite Hc by (unfold exact_gap, tol; nra). cbn [action_of].
    split; [split; [intros X; discriminate X|intros H; lra]|].
    split; [intros _; exact K|reflexivity].
  - pose proof (inject_Z_le 572 k Le) as B.
    change (inject_Z 572) with 572%Q in B.
    assert (K : (5 # 14 < e)%Q) by lra.
    rewrite Hr by (unfold exact_gap, tol; nra). cbn [action_of].
    split; [split; [intros _; exact K|reflexivity]|].
    split; [intros X; discriminate X|intros H; lra].
Qed.

(** X17: against an opponent seen folding in at least a third of more than 5
    observed actions, a request past the trash filter is always answered
    RAISE: the bot never calls. *)
Theorem frequent_folder_raise d g e g' n_fold n_call n_raise :
  valid_request d ->
  computed_equity d g e g' ->
  (0.35 <= e)%Q ->
  counted_stats d n_fold n_call n_raise ->
  5 < n_fold + n_call + n_raise ->
  n_fold + n_call + n_raise <= 3 * n_fold ->
  decide_action (PDict d) g = ("RAISE", g').
Proof.
  intros V C E (sd & Hs & Hf & Hc & Hr) Many Often.
  pose proof (monte_carlo_reachable _ _ _ _ _ C) as R.
  pose proof (reachable_range e R) as Re.
  destruct (fold_frequency_eval _ _ _ _ Hf Hc Hr) as [_ M].
  destruct (M Many) as (q & _ & Bq & F). clear M.
  assert (Rt : (1 # 3 <= inject_Z n_fold / inject_Z (n_fold + n_call + n_raise))%Q).
  { apply Qle_shift_div_l.
    - change 0%Q with (inject_Z 0). rewrite <- Zlt_Qlt. lia.
    - unfold Qle, Qmult, inject_Z. cbn [Qnum Qden]. lia. }
  destruct (max_min_range (FNum q)) as (v & Ev & _ & _ & Bv & Low).
  rewrite Ev in F. specialize (Low q eq_refl).
  unfold decide_action.
  rewrite (decide_body_valid _ _ _ _ V C), Hs.
  destruct (strategic_logic_past_filter (PDict sd) e R E) as (r & _ & Br & ->).
  rewrite F. cbn [rbind]. unfold eta in *.
  destruct (final_decision_cases v r ltac:(lra) ltac:(lra))
    as (_ & _ & Hraise & _ & _).
  rewrite Hraise; [reflexivity|].
  unfold exact_gap, tol. destruct Low as [Low|Low]; nra.
Qed.

(** X18: past the trash filter the action is FOLD only through an exception
    of the opponent analysis, for instance when the statistics are not a
    mapping; a strong hand is then folded. *)
Theorem stats_fault_folds d g e g' :
  valid_request d ->
  computed_equity d g e g' ->
  (0.35 <= e)%Q ->
  (fst (decide_action (PDict d) g) = "FOLD" <->
   exists x, fold_frequency (request_stats d) = Raise x) /\
  ((forall sd, request_stats d <> PDict sd) ->
   decide_body (PDict d) g = (Raise AttributeError, g')).
Proof.
  intros V C E.
  pose proof (monte_carlo_reachable _ _ _ _ _ C) as R.
  unfold decide_action.
  rewrite (decide_body_valid _ _ _ _ V C).
  split.
  - destruct (fold_frequency (request_stats d)) as [ff|x] eqn:F.
    + destruct (strategic_logic_returns _ e ff R E F) as [-> | ->];
        cbn [fst action_of];
        (split; [intros X; discriminate X|intros (x & X); discriminate X]).
    + destruct (strategic_logic_past_filter (request_stats d) e R E)
        as (r & _ & _ & ->).
      rewrite F. cbn [rbind fst]. split; [eauto|reflexivity].
  - intros N.
    destruct (strategic_logic_past_filter (request_stats d) e R E)
      as (r & _ & _ & ->).
    destruct (request_stats d); try reflexivity.
    now destruct (N d0).
Qed.

(** *** Rounding at work *)

(** With 2 folds in 8 actions and the equity 0.4 the expected values of RAISE
    and CALL differ by exactly 0.10 in exact arithmetic; in binary64
    [ev_raise] exceeds [ev_call + 0.10] and the body returns at RAISE. *)
Example rounded_tie_raises :
  (exact_gap (2 # 8) 0.4 == 0.10)%Q /\
  strategic_logic (PDict [("fold", PInt 2); ("call", PInt 6)]) 0.4 =
    Ok RetRaise.
Proof. split; [reflexivity|vm_compute; reflexivity]. Qed.

(** A fold share just above 4/13 at the equity 0.35: the exact difference
    exceeds 0.10, the computed one does not, and the body returns at CALL. *)
Example rounded_margin_calls :
  (0.10 < exact_gap (2400000000000001 # 7800000000000000) 0.35)%Q /\
  strategic_logic
    (PDict [("fold", PInt 2400000000000001); ("call", PInt 5399999999999999)])
    0.35 = Ok RetCall.
Proof. split; [reflexivity|vm_compute; reflexivity]. Qed.

(** Between two neighbouring floats that no run of 800 trials produces, the
    decision can go from RAISE back to CALL: the monotonicity of the
    strategic logic is a fact about reachable equities. *)
Example neighbouring_floats_not_monotone :
  (3795891114497989 # 9007199254740992
     < 7591782228995979 # 18014398509481984)%Q /\
  strategic_logic (PDict [("fold", PInt 2); ("call", PInt 7)])
    (3795891114497989 # 9007199254740992) = Ok RetRaise /\
  strategic_logic (PDict [("fold", PInt 2); ("call", PInt 7)])
    (7591782228995979 # 18014398509481984) = Ok RetCall.
Proof.
  split; [reflexivity|]. split; vm_compute; reflexivity.
Qed.

(** Integer counts whose quotient is too large for a float. *)
Example huge_counts_overflow :
  fold_frequency
    (PDict [("fold", PInt (10 ^ 400)); ("call", PInt (6 - 10 ^ 400))]) =
    Raise OverflowError.
Proof. vm_compute. reflexivity. Qed.

(** Float counts whose sum overflows to an infinity: the ratio is 0. *)
Example float_counts_overflow :
  fold_frequency
    (PDict [("fold", PFloat (inject_Z (10 ^ 308)));
            ("call", PFloat (inject_Z (10 ^ 308)))]) =
    Ok (b64 0.05).
Proof. vm_compute. reflexivity. Qed.

(** ** Short hands, the wheel and the I/O glue *)

(** X19: on fewer than three values [is_straight_3] raises [IndexError]
    exactly when it has to look at a missing element: always on one value,
    and on two values when they are consecutive; two values that are not
    consecutive give [(False, 0)], so a hole of a single card can still be
    categorised. *)
Theorem is_straight_3_short a b :
  is_straight_3 [] = Raise IndexError /\
  is_straight_3 [a] = Raise IndexError /\
  is_straight_3 [a; b] =
    if Z.min a b + 1 =? Z.max a b then Raise IndexError else Ok (false, 0).
Proof.
  split; [reflexivity|]. split; [reflexivity|].
  unfold is_straight_3.
  assert (S : sorted [a; b] = [Z.min a b; Z.max a b]).
  { simpl. destruct (Z.leb_spec a b); f_equal; try f_equal; lia. }
  rewrite S. cbn [idx nth_error rbind].
  destruct (Z.min a b + 1 =? Z.max a b); cbn [rbind]; [reflexivity|].
  destruct (set_eqb _ _) eqn:E; [|reflexivity].
  exfalso. pose proof (proj1 (set_eqb_spec _ _) E) as E'.
  assert (I14 : In 14 [Z.min a b; Z.max a b]) by (apply E'; simpl; auto).
  assert (I2 : In 2 [Z.min a b; Z.max a b]) by (apply E'; simpl; auto).
  assert (I3 : In 3 [Z.min a b; Z.max a b]) by (apply E'; simpl; auto).
  simpl in I14, I2, I3. lia.
Qed.

Lemma sorted_reverse_3 a b c :
  sorted_reverse [a; b; c] =
  [max3 a b c; a + b + c - min3 a b c - max3 a b c; min3 a b c].
Proof. unfold sorted_reverse. now rewrite sorted_3. Qed.

(** A positive answer of [is_straight_3] on three values means a run of
    consecutive values or the wheel. *)
Lemma is_straight_3_true_inv a b c high :
  is_straight_3 [a; b; c] = Ok (true, high) ->
  (max3 a b c = min3 a b c + 2 /\ a + b + c = 3 * min3 a b c + 3) \/
  wheel_set [a; b; c].
Proof.
  rewrite is_straight_3_eq.
  destruct ((min3 a b c + 1 =? a + b + c - min3 a b c - max3 a b c)
            && (a + b + c - min3 a b c - max3 a b c + 1 =? max3 a b c)) eqn:Run.
  - intros _. left. apply andb_true_iff in Run. destruct Run as [R1 R2].
    apply Z.eqb_eq in R1, R2. lia.
  - destruct (set_eqb (sorted [a; b; c]) [14; 2; 3]) eqn:W; [|discriminate].
    intros _. right. apply wheel_set_sorted, set_eqb_wheel, W.
Qed.

(** X20: the wheel is the lowest straight: among two hands of the same
    straight category (3 or 5), the one whose values are ace, 2 and 3 loses to
    any other. *)
Theorem wheel_is_lowest_straight
    a1 a2 b1 b2 t va1 va2 vb1 vb2 vt sa1 sa2 sb1 sb2 st k :
  parse_card (PStr a1) = Ok (va1, sa1) ->
  parse_card (PStr a2) = Ok (va2, sa2) ->
  parse_card (PStr b1) = Ok (vb1, sb1) ->
  parse_card (PStr b2) = Ok (vb2, sb2) ->
  parse_card (PStr t) = Ok (vt, st) ->
  hand_category (hand a1 a2) (PStr t) = Ok k ->
  hand_category (hand b1 b2) (PStr t) = Ok k ->
  k = 3 \/ k = 5 ->
  wheel_set [va1; va2; vt] ->
  ~ wheel_set [vb1; vb2; vt] ->
  compare_hands_internal (hand a1 a2) (PStr t) (hand b1 b2) = Ok 0.0%Q.
Proof.
  intros HA1 HA2 HB1 HB2 HT KA KB K WA WB.
  rewrite (compare_unfold _ _ _ _ _ _ _ KA KB
             (card_values_tokens _ _ _ _ _ _ _ _ _ HA1 HA2 HT)
             (card_values_tokens _ _ _ _ _ _ _ _ _ HB1 HB2 HT)).
  destruct (Z.gtb_spec k k); [lia|].
  assert (F : (k =? 5) || (k =? 3) = true)
    by (destruct K as [-> | ->]; reflexivity).
  rewrite F. cbn [andb].
  assert (EA : set_eqb (sorted_reverse [va1; va2; vt]) [14; 3; 2] = true)
    by now apply set_eqb_wheel_reverse.
  assert (EB : set_eqb (sorted_reverse [vb1; vb2; vt]) [14; 3; 2] = false).
  { destruct (set_eqb (sorted_reverse [vb1; vb2; vt]) [14; 3; 2]) eqn:E;
      [|reflexivity].
    apply set_eqb_wheel_reverse in E. contradiction. }
  rewrite EA, EB.
  (* the other hand is a run of three consecutive values *)
  destruct (hand_category_tokens _ _ _ _ _ _ _ _ _ HB1 HB2 HT)
    as (f & stb & high & _ & HS & KB').
  rewrite KB in KB'. injection KB' as KB'.
  assert (stb = true).
  { destruct stb; [reflexivity|]. exfalso. cbn [andb] in KB'.
    destruct (in_values 3 _); [lia|].
    destruct f; [lia|]. destruct (in_values 2 _); lia. }
  subst stb.
  destruct (is_straight_3_true_inv _ _ _ _ HS) as [Run|W]; [|contradiction].
  destruct (parse_card_token _ _ _ HB1) as (R1 & _).
  destruct (parse_card_token _ _ _ HB2) as (R2 & _).
  destruct (parse_card_token _ _ _ HT) as (R3 & _).
  unfold is_rank in *.
  assert (M : 2 <= min3 vb1 vb2 vt) by (unfold min3; lia).
  rewrite sorted_reverse_3. cbn [combine compare_loop].
  destruct (Z.gtb_spec 3 (max3 vb1 vb2 vt)); [lia|].
  destruct (Z.gtb_spec (max3 vb1 vb2 vt) 3); [reflexivity|lia].
Qed.

(** X21: [main] outputs the action of [decide_action] on the parsed state;
    its coercion to CALL never fires.  An empty or unparseable input, and any
    JSON value that is not an object, give FOLD without a draw. *)
Theorem main_output parsed g :
  main parsed g =
    decide_action (match parsed with Some v => v | None => PDict [] end) g /\
  main None g = ("FOLD", g) /\
  (forall v, (forall d, v <> PDict d) -> main (Some v) g = ("FOLD", g)).
Proof.
  assert (M : forall st, (let (action, g') := decide_action st g in
                          (coerce action, g')) = decide_action st g).
  { intros st. pose proof (decide_action_valid st g) as V.
    destruct (decide_action st g) as [a g']. cbn [fst] in V.
    now rewrite coerce_valid. }
  split; [apply M|]. split; [reflexivity|].
  intros v N. unfold main. rewrite M. unfold decide_action.
  now rewrite decide_body_not_dict.
Qed.

(** X22: a request with two parseable hole tokens, a parseable table token
    and counted statistics never takes the exception path: the body runs the
    800 trials and returns at the trash filter, at RAISE or at CALL. *)
Theorem well_formed_request_returns
    d g c1 c2 t v1 v2 v3 s1 s2 s3 n_fold n_call n_raise :
  request_hole d = hand c1 c2 ->
  request_table d = PStr t ->
  parse_card (PStr c1) = Ok (v1, s1) ->
  parse_card (PStr c2) = Ok (v2, s2) ->
  parse_card (PStr t) = Ok (v3, s3) ->
  counted_stats d n_fold n_call n_raise ->
  exists s g',
    decide_body (PDict d) g = (Ok s, g') /\
    (s = RetTrash \/ s = RetRaise \/ s = RetCall) /\
    tape g' = tape g /\ pos g' = (pos g + 800)%nat.
Proof.
  intros Hh Ht H1 H2 H3 S.
  assert (M : exists e g', monte_carlo (hand c1 c2) (PStr t) g = (Ok e, g')).
  { unfold monte_carlo, bind, lift, ret.
    unfold hand at 1. rewrite build_deck_list.
    destruct (tokens_simulate_returns _ _ _ _ _ _ _ _ _ H1 H2 H3 g)
      as (w & g' & S0).
    rewrite S0. eauto. }
  destruct M as (e & g' & M).
  assert (V : valid_request d).
  { unfold valid_request. rewrite Hh, Ht. split; [reflexivity|].
    destruct t; [discriminate H3|reflexivity]. }
  assert (C : computed_equity d g e g')
    by (unfold computed_equity; now rewrite Hh, Ht).
  destruct (monte_carlo_draws _ _ _ _ _ M) as [P T].
  pose proof (monte_carlo_reachable _ _ _ _ _ M) as R.
  exists (match strategic_logic (request_stats d) e with
          | Ok s => s
          | Raise _ => RetTrash
          end), g'.
  rewrite (decide_body_valid _ _ _ _ V C).
  destruct (Qlt_le_dec e 0.35%Q) as [Lt|Ge].
  - rewrite (strategic_logic_trash (request_stats d) e R Lt). auto.
  - destruct S as (sd & Hs & Hf & Hc & Hr).
    destruct (fold_frequency_counts _ _ _ _ Hf Hc Hr) as (ff & F & _).
    rewrite <- Hs in F.
    destruct (strategic_logic_returns _ e ff R Ge F) as [-> | ->]; auto.
Qed.

(** ** The further properties at sample inputs *)

Lemma In_all_cards c :
  existsb (String.eqb c) all_cards = true -> In c all_cards.
Proof.
  intros H. apply existsb_exists in H. destruct H as (x & I & E).
  apply String.eqb_eq in E. now subst.
Qed.

Lemma counted_stats_intro d sd nf nc nr :
  request_stats d = PDict sd ->
  count_field sd "fold" nf -> count_field sd "call" nc ->
  count_field sd "raise" nr ->
  counted_stats d nf nc nr.
Proof. intros. exists sd. auto. Qed.

Lemma count_field_present sd key n :
  0 <= n -> assoc key sd = Some (PInt n) -> count_field sd key n.
Proof. intros. split; auto. Qed.

Lemma count_field_absent sd key :
  assoc key sd = None -> count_field sd key 0.
Proof. intros. split; [lia|auto]. Qed.

(** The Monte Carlo step on the king and queen of spades with the ace of
    spades on the table, started from [g0]. *)
Lemma strong_cards_equity :
  monte_carlo (hand "KS" "QS") (PStr "AS") g0 =
    (Ok (equity_of strong_request g0), rng_after strong_request g0).
Proof. vm_compute. reflexivity. Qed.

Lemma strong_cards_equity_high : (0.35 <= equity_of strong_request g0)%Q.
Proof. apply Qle_bool_iff. vm_compute. reflexivity. Qed.


Lemma trash_filter_folds_witness :
  valid_request weak_request /\
  computed_equity weak_request g0
    (equity_of weak_request g0) (rng_after weak_request g0) /\
  (equity_of weak_request g0 < 0.35)%Q /\
  decide_action (PDict weak_request) g0 = ("FOLD", rng_after weak_request g0).
Proof.
  assert (V : valid_request weak_request) by (split; reflexivity).
  assert (C : computed_equity weak_request g0
                (equity_of weak_request g0) (rng_after weak_request g0))
    by (vm_compute; reflexivity).
  assert (E : (equity_of weak_request g0 < 0.35)%Q)
    by (apply Qltb_lt; vm_compute; reflexivity).
  split; [exact V|]. split; [exact C|]. split; [exact E|].
  pose proof (trash_filter_folds _ _ _ _ V C E) as T.
  exact (proj1 (proj2 T)).
Defined.

Lemma fallback_unreachable_witness :
  valid_request default_request /\
  computed_equity default_request g0
    (equity_of strong_request g0) (rng_after strong_request g0) /\
  (0.35 <= equity_of strong_request g0)%Q /\
  counted_stats default_request 0 0 0 /\
  (decide_action (PDict default_request) g0 =
     ("RAISE", rng_after strong_request g0) \/
   decide_action (PDict default_request) g0 =
     ("CALL", rng_after strong_request g0)).
Proof.
  assert (V : valid_request default_request) by (split; reflexivity).
  assert (C : computed_equity default_request g0
                (equity_of strong_request g0) (rng_after strong_request g0))
    by exact strong_cards_equity.
  assert (S : counted_stats default_request 0 0 0).
  { apply (counted_stats_intro default_request []); try reflexivity;
      apply count_field_absent; reflexivity. }
  split; [exact V|]. split; [exact C|].
  split; [exact strong_cards_equity_high|]. split; [exact S|].
  pose proof (fallback_unreachable _ _ _ _ _ _ _
                V C strong_cards_equity_high S) as T.
  exact (proj1 (proj2 (proj2 T))).
Defined.

(** The claim C9 as worded does not hold: a request that passes validation
    with a computed equity of at least 0.35 is answered FOLD when its
    statistics are not a mapping; and in binary64 [ev_call] falls below -0.47
    at the fold frequency 0.05 and the equity 0.35. *)
Lemma fallback_unreachable_counterexample :
  valid_request faulty_request /\
  computed_equity faulty_request g0
    (equity_of strong_request g0) (rng_after strong_request g0) /\
  (0.35 <= equity_of strong_request g0)%Q /\
  decide_action (PDict faulty_request) g0 =
    ("FOLD", rng_after strong_request g0) /\
  ~ (decide_action (PDict faulty_request) g0 =
       ("CALL", rng_after strong_request g0) \/
     decide_action (PDict faulty_request) g0 =
       ("RAISE", rng_after strong_request g0)) /\
  exists v, ev_call (b64 0.05) (b64 0.35) = FNum v /\ (v < -0.47)%Q.
Proof.
  assert (V : valid_request faulty_request) by (split; reflexivity).
  assert (C : computed_equity faulty_request g0
                (equity_of strong_request g0) (rng_after strong_request g0))
    by exact strong_cards_equity.
  assert (D : decide_action (PDict faulty_request) g0 =
                ("FOLD", rng_after strong_request g0)).
  { unfold decide_action. rewrite (decide_body_valid _ _ _ _ V C).
    destruct (strategic_logic_past_filter (request_stats faulty_request) _
                (monte_carlo_reachable _ _ _ _ _ C) strong_cards_equity_high)
      as (r & _ & _ & ->).
    reflexivity. }
  split; [exact V|]. split; [exact C|].
  split; [exact strong_cards_equity_high|]. split; [exact D|].
  split.
  - rewrite D. intros [X|X]; discriminate X.
  - eexists. split; [vm_compute; reflexivity|reflexivity].
Qed.

Lemma build_deck_49_witness :
  In "KS" all_cards /\ In "QS" all_cards /\ In "AS" all_cards /\
  "KS" <> "QS" /\ "KS" <> "AS" /\ "QS" <> "AS" /\
  exists deck,
    build_deck (hand "KS" "QS") (PStr "AS") = Ok deck /\
    List.length deck = 49%nat.
Proof.
  assert (I1 : In "KS" all_cards) by (apply In_all_cards; reflexivity).
  assert (I2 : In "QS" all_cards) by (apply In_all_cards; reflexivity).
  assert (I3 : In "AS" all_cards) by (apply In_all_cards; reflexivity).
  assert (N1 : "KS" <> "QS") by (intros E; discriminate E).
  assert (N2 : "KS" <> "AS") by (intros E; discriminate E).
  assert (N3 : "QS" <> "AS") by (intros E; discriminate E).
  split; [exact I1|]. split; [exact I2|]. split; [exact I3|].
  split; [exact N1|]. split; [exact N2|]. split; [exact N3|].
  exact (build_deck_49 "KS" "QS" "AS" I1 I2 I3 N1 N2 N3).
Defined.

Lemma sampled_opponent_cards_witness :
  build_deck (PList [PStr "KS"; PStr "QS"]) (PStr "AS") =
    Ok (filter (unknown_card [PStr "KS"; PStr "QS"] (PStr "AS")) all_cards) /\
  random_sample
    (filter (unknown_card [PStr "KS"; PStr "QS"] (PStr "AS")) all_cards) g0 =
    (Ok ["2C"; "3S"], {| tape := tape g0; pos := 1 |}) /\
  exists c1 c2,
    ["2C"; "3S"] = [c1; c2] /\ c1 <> c2 /\
    In c1 all_cards /\ In c2 all_cards /\
    ~ In (PStr c1) [PStr "KS"; PStr "QS"] /\
    ~ In (PStr c2) [PStr "KS"; PStr "QS"] /\
    PStr "AS" <> PStr c1 /\ PStr "AS" <> PStr c2.
Proof.
  assert (B : build_deck (PList [PStr "KS"; PStr "QS"]) (PStr "AS") =
              Ok (filter (unknown_card [PStr "KS"; PStr "QS"] (PStr "AS"))
                    all_cards))
    by (vm_compute; reflexivity).
  assert (R : random_sample
                (filter (unknown_card [PStr "KS"; PStr "QS"] (PStr "AS"))
                   all_cards) g0 =
              (Ok ["2C"; "3S"], {| tape := tape g0; pos := 1 |}))
    by (vm_compute; reflexivity).
  split; [exact B|]. split; [exact R|].
  exact (sampled_opponent_cards _ _ _ _ _ _ B R).
Defined.

Lemma monte_carlo_tokens_Ok_witness :
  parse_card (PStr "KS") = Ok (13, PStr "S") /\
  parse_card (PStr "QS") = Ok (12, PStr "S") /\
  parse_card (PStr "AS") = Ok (14, PStr "S") /\
  exists e g', monte_carlo (hand "KS" "QS") (PStr "AS") g0 = (Ok e, g').
Proof.
  assert (H1 : parse_card (PStr "KS") = Ok (13, PStr "S")) by reflexivity.
  assert (H2 : parse_card (PStr "QS") = Ok (12, PStr "S")) by reflexivity.
  assert (H3 : parse_card (PStr "AS") = Ok (14, PStr "S")) by reflexivity.
  split; [exact H1|]. split; [exact H2|]. split; [exact H3|].
  exact (monte_carlo_tokens_Ok "KS" "QS" "AS" _ _ _ _ _ _ g0 H1 H2 H3).
Defined.


Lemma raise_threshold_witness :
  (4 # 100 <= 0.30 <= 96 # 100)%Q /\ (34 # 100 <= 1 <= 1)%Q /\
  (0.10 + tol <= exact_gap 0.30 1)%Q /\
  flt ev_fold (ev_raise (FNum 0.30) (FNum 1)) = true /\
  final_decision (FNum 0.30) (FNum 1) = RetRaise.
Proof.
  assert (B : (4 # 100 <= 0.30 <= 96 # 100)%Q)
    by (split; apply Qle_bool_iff; reflexivity).
  assert (E : (34 # 100 <= 1 <= 1)%Q)
    by (split; apply Qle_bool_iff; reflexivity).
  assert (G : (0.10 + tol <= exact_gap 0.30 1)%Q)
    by (apply Qle_bool_iff; reflexivity).
  split; [exact B|]. split; [exact E|]. split; [exact G|].
  pose proof (raise_threshold 0.30%Q 1%Q B E) as T.
  split; [exact (proj1 (proj2 T))|].
  exact (proj1 (proj2 (proj2 T)) G).
Defined.

Lemma strategic_logic_monotone_witness :
  reachable 0.5 /\ reachable 0.75 /\
  strategic_logic (PDict []) 0.5%Q = Ok RetRaise /\
  (0.5 <= 0.75)%Q /\
  (RetRaise = RetRaise -> strategic_logic (PDict []) 0.75%Q = Ok RetRaise) /\
  (RetRaise = RetCall ->
   strategic_logic (PDict []) 0.75%Q = Ok RetCall \/
   strategic_logic (PDict []) 0.75%Q = Ok RetRaise).
Proof.
  assert (R : reachable 0.5) by (exists 800; split; [lia|reflexivity]).
  assert (R' : reachable 0.75) by (exists 1200; split; [lia|reflexivity]).
  assert (S : strategic_logic (PDict []) 0.5%Q = Ok RetRaise)
    by (vm_compute; reflexivity).
  assert (L : (0.5 <= 0.75)%Q) by (apply Qle_bool_iff; reflexivity).
  split; [exact R|]. split; [exact R'|]. split; [exact S|]. split; [exact L|].
  exact (strategic_logic_monotone (PDict []) 0.5%Q 0.75%Q RetRaise R R' S L).
Defined.

Lemma default_prior_rule_witness :
  valid_request default_request /\
  computed_equity default_request g0
    (equity_of strong_request g0) (rng_after strong_request g0) /\
  (0.35 <= equity_of strong_request g0)%Q /\
  counted_stats default_request 0 0 0 /\
  0 + 0 + 0 <= 5 /\
  (decide_action (PDict default_request) g0 =
     ("RAISE", rng_after strong_request g0) <->
   (5 # 14 < equity_of strong_request g0)%Q) /\
  (decide_action (PDict default_request) g0 =
     ("CALL", rng_after strong_request g0) <->
   (equity_of strong_request g0 <= 5 # 14)%Q).
Proof.
  assert (V : valid_request default_request) by (split; reflexivity).
  assert (C : computed_equity default_request g0
                (equity_of strong_request g0) (rng_after strong_request g0))
    by exact strong_cards_equity.
  assert (S : counted_stats default_request 0 0 0).
  { apply (counted_stats_intro default_request []); try reflexivity;
      apply count_field_absent; reflexivity. }
  assert (F : 0 + 0 + 0 <= 5) by lia.
  split; [exact V|]. split; [exact C|].
  split; [exact strong_cards_equity_high|]. split; [exact S|].
  split; [exact F|].
  exact (default_prior_rule _ _ _ _ _ _ _ V C strong_cards_equity_high S F).
Defined.

Lemma frequent_folder_raise_witness :
  valid_request folder_request /\
  computed_equity folder_request g0
    (equity_of strong_request g0) (rng_after strong_request g0) /\
  (0.35 <= equity_of strong_request g0)%Q /\
  counted_stats folder_request 5 3 1 /\
  5 < 5 + 3 + 1 /\
  5 + 3 + 1 <= 3 * 5 /\
  decide_action (PDict folder_request) g0 =
    ("RAISE", rng_after strong_request g0).
Proof.
  assert (V : valid_request folder_request) by (split; reflexivity).
  assert (C : computed_equity folder_request g0
                (equity_of strong_request g0) (rng_after strong_request g0))
    by exact strong_cards_equity.
  assert (S : counted_stats folder_request 5 3 1).
  { apply (counted_stats_intro folder_request
             [("fold", PInt 5); ("call", PInt 3); ("raise", PInt 1)]);
      try reflexivity;
      (apply count_field_present; [lia|reflexivity]). }
  assert (M : 5 < 5 + 3 + 1) by lia.
  assert (O : 5 + 3 + 1 <= 3 * 5) by lia.
  split; [exact V|]. split; [exact C|].
  split; [exact strong_cards_equity_high|]. split; [exact S|].
  split; [exact M|]. split; [exact O|].
  exact (frequent_folder_raise _ _ _ _ _ _ _
           V C strong_cards_equity_high S M O).
Defined.

Lemma stats_fault_folds_witness :
  valid_request faulty_request /\
  computed_equity faulty_request g0
    (equity_of strong_request g0) (rng_after strong_request g0) /\
  (0.35 <= equity_of strong_request g0)%Q /\
  (fst (decide_action (PDict faulty_request) g0) = "FOLD" <->
   exists x, fold_frequency (request_stats faulty_request) = Raise x) /\
  ((forall sd, request_stats faulty_request <> PDict sd) ->
   decide_body (PDict faulty_request) g0 =
     (Raise AttributeError, rng_after strong_request g0)).
Proof.
  assert (V : valid_request faulty_request) by (split; reflexivity).
  assert (C : computed_equity faulty_request g0
                (equity_of strong_request g0) (rng_after strong_request g0))
    by exact strong_cards_equity.
  split; [exact V|]. split; [exact C|].
  split; [exact strong_cards_equity_high|].
  exact (stats_fault_folds _ _ _ _ V C strong_cards_equity_high).
Defined.

Lemma wheel_is_lowest_straight_witness :
  parse_card (PStr "AH") = Ok (14, PStr "H") /\
  parse_card (PStr "2D") = Ok (2, PStr "D") /\
  parse_card (PStr "4D") = Ok (4, PStr "D") /\
  parse_card (PStr "2C") = Ok (2, PStr "C") /\
  parse_card (PStr "3H") = Ok (3, PStr "H") /\
  hand_category (hand "AH" "2D") (PStr "3H") = Ok 3 /\
  hand_category (hand "4D" "2C") (PStr "3H") = Ok 3 /\
  (3 = 3 \/ 3 = 5) /\
  wheel_set [14; 2; 3] /\
  ~ wheel_set [4; 2; 3] /\
  compare_hands_internal (hand "AH" "2D") (PStr "3H") (hand "4D" "2C") = Ok 0.0%Q.
Proof.
  assert (HA1 : parse_card (PStr "AH") = Ok (14, PStr "H")) by reflexivity.
  assert (HA2 : parse_card (PStr "2D") = Ok (2, PStr "D")) by reflexivity.
  assert (HB1 : parse_card (PStr "4D") = Ok (4, PStr "D")) by reflexivity.
  assert (HB2 : parse_card (PStr "2C") = Ok (2, PStr "C")) by reflexivity.
  assert (HT : parse_card (PStr "3H") = Ok (3, PStr "H")) by reflexivity.
  assert (KA : hand_category (hand "AH" "2D") (PStr "3H") = Ok 3) by reflexivity.
  assert (KB : hand_category (hand "4D" "2C") (PStr "3H") = Ok 3) by reflexivity.
  assert (K : 3 = 3 \/ 3 = 5) by (left; reflexivity).
  assert (WA : wheel_set [14; 2; 3]) by (intros v; simpl; lia).
  assert (WB : ~ wheel_set [4; 2; 3])
    by (intros W; specialize (W 14); simpl in W; lia).
  split; [exact HA1|]. split; [exact HA2|]. split; [exact HB1|].
  split; [exact HB2|]. split; [exact HT|]. split; [exact KA|].
  split; [exact KB|]. split; [exact K|]. split; [exact WA|].
  split; [exact WB|].
  exact (wheel_is_lowest_straight _ _ _ _ _ _ _ _ _ _ _ _ _ _ _ _
           HA1 HA2 HB1 HB2 HT KA KB K WA WB).
Defined.

Lemma well_formed_request_returns_witness :
  request_hole strong_request = hand "KS" "QS" /\
  request_table strong_request = PStr "AS" /\
  parse_card (PStr "KS") = Ok (13, PStr "S") /\
  parse_card (PStr "QS") = Ok (12, PStr "S") /\
  parse_card (PStr "AS") = Ok (14, PStr "S") /\
  counted_stats strong_request 2 7 1 /\
  exists s g',
    decide_body (PDict strong_request) g0 = (Ok s, g') /\
    (s = RetTrash \/ s = RetRaise \/ s = RetCall) /\
    tape g' = tape g0 /\ pos g' = (pos g0 + 800)%nat.
Proof.
  assert (Hh : request_hole strong_request = hand "KS" "QS") by reflexivity.
  assert (Ht : request_table strong_request = PStr "AS") by reflexivity.
  assert (H1 : parse_card (PStr "KS") = Ok (13, PStr "S")) by reflexivity.
  assert (H2 : parse_card (PStr "QS") = Ok (12, PStr "S")) by reflexivity.
  assert (H3 : parse_card (PStr "AS") = Ok (14, PStr "S")) by reflexivity.
  assert (S : counted_stats strong_request 2 7 1).
  { apply (counted_stats_intro strong_request
             [("fold", PInt 2); ("call", PInt 7); ("raise", PInt 1)]);
      try reflexivity;
      (apply count_field_present; [lia|reflexivity]). }
  split; [exact Hh|]. split; [exact Ht|]. split; [exact H1|].
  split; [exact H2|]. split; [exact H3|]. split; [exact S|].
  exact (well_formed_request_returns strong_request g0 "KS" "QS" "AS"
           _ _ _ _ _ _ 2 7 1 Hh Ht H1 H2 H3 S).
Defined.
